(** * DevSolves authentication core: a shallow embedding and its properties

    The development follows the layout of the repository:

    - [JS]        the runtime primitives the sources call (strings as UTF-16
                  code units, UTF-8, base64 in its Node and Web flavours,
                  SHA-256, HMAC, JSON),
    - [Jwt]       lib/auth/jwt.ts        (parseDuration, signToken, verifyToken),
    - [Edge]      middleware.ts          (verifyTokenEdge, middleware),
    - [RateLimit] lib/auth/rateLimit.ts  (checkRateLimit and friends),
    - [Store]     lib/models/User.ts     (the user collection, the pre-save hook),
    - [Routes]    app/api/auth/*         (refresh, login payload, verify-email,
                  forgot-password, reset-password).

    Strings are lists of UTF-16 code units ([list N]), bytes are [N] below 256,
    clock readings and counters are [Z]. *)

From Stdlib Require Import ZArith NArith Lia List String Ascii Bool.
From stdpp Require Import gmap.
Import ListNotations.

Set Default Proof Using "Type".
Set Warnings "-register-all".

(* ===================================================================== *)
(** * The runtime primitives *)
(* ===================================================================== *)

Module JS.
Open Scope N_scope.

(** A JavaScript string is its sequence of UTF-16 code units. *)
Abbreviation jsstring := (list N) (only parsing).

(** String literals of the sources, unit by unit. *)
Definition js (s : string) : list N := map N_of_ascii (list_ascii_of_string s).

Definition wf16 (s : list N) : Prop := Forall (fun c => c < 65536) s.
Definition bytes (l : list N) : Prop := Forall (fun b => b < 256) l.

(** [a === b] on strings *)
Fixpoint streq (a b : list N) : bool :=
  match a, b with
  | [], [] => true
  | x :: a', y :: b' => (x =? y) && streq a' b'
  | _, _ => false
  end.

(** ** UTF-16 to UTF-8 ([Buffer.from(str)], [hmac.update(str)], [TextEncoder]) *)

Definition is_high (c : N) : bool := (0xD800 <=? c) && (c <=? 0xDBFF).
Definition is_low (c : N) : bool := (0xDC00 <=? c) && (c <=? 0xDFFF).

Definition replacement : list N := [0xEF; 0xBF; 0xBD].

Definition enc2 (c : N) : list N := [0xC0 + c / 64; 0x80 + c mod 64].
Definition enc3 (c : N) : list N :=
  [0xE0 + c / 4096; 0x80 + (c / 64) mod 64; 0x80 + c mod 64].
Definition enc4 (cp : N) : list N :=
  [0xF0 + cp / 262144; 0x80 + (cp / 4096) mod 64;
   0x80 + (cp / 64) mod 64; 0x80 + cp mod 64].

Definition pair_cp (hi lo : N) : N := 0x10000 + (hi - 0xD800) * 1024 + (lo - 0xDC00).

(** A surrogate that has no partner is encoded as U+FFFD. *)
Fixpoint utf8_encode (s : list N) : list N :=
  match s with
  | [] => []
  | c :: r =>
    if c <? 0x80 then c :: utf8_encode r
    else if c <? 0x800 then enc2 c ++ utf8_encode r
    else if is_high c then
      match r with
      | d :: r' =>
        if is_low d then enc4 (pair_cp c d) ++ utf8_encode r'
        else replacement ++ utf8_encode r
      | [] => replacement
      end
    else if is_low c then replacement ++ utf8_encode r
    else enc3 c ++ utf8_encode r
  end.

(** ** UTF-8 to UTF-16 ([buf.toString()]), the decoder of the Encoding
    standard: an ill-formed sequence yields U+FFFD and the offending byte is
    read again as the start of a sequence. *)

Record dstate := DState { d_need : nat; d_cp : N; d_lo : N; d_hi : N }.

Definition d_init : dstate := DState 0 0 0x80 0xBF.

Definition units_of_cp (cp : N) : list N :=
  if cp <? 0x10000 then [cp]
  else [0xD800 + (cp - 0x10000) / 1024; 0xDC00 + (cp - 0x10000) mod 1024].

Definition d_start (b : N) : list N * dstate :=
  if b <? 0x80 then ([b], d_init)
  else if (0xC2 <=? b) && (b <=? 0xDF) then ([], DState 1 (b mod 32) 0x80 0xBF)
  else if (0xE0 <=? b) && (b <=? 0xEF) then
    ([], DState 2 (b mod 16) (if b =? 0xE0 then 0xA0 else 0x80)
                              (if b =? 0xED then 0x9F else 0xBF))
  else if (0xF0 <=? b) && (b <=? 0xF4) then
    ([], DState 3 (b mod 8) (if b =? 0xF0 then 0x90 else 0x80)
                             (if b =? 0xF4 then 0x8F else 0xBF))
  else ([0xFFFD], d_init).

Definition d_step (st : dstate) (b : N) : list N * dstate :=
  match d_need st with
  | O => d_start b
  | S k =>
    if (d_lo st <=? b) && (b <=? d_hi st) then
      let cp := d_cp st * 64 + b mod 64 in
      match k with
      | O => (units_of_cp cp, d_init)
      | S _ => ([], DState k cp 0x80 0xBF)
      end
    else let '(o, st') := d_start b in (0xFFFD :: o, st')
  end.

Fixpoint utf8_decode_from (st : dstate) (bs : list N) : list N :=
  match bs with
  | [] => match d_need st with O => [] | S _ => [0xFFFD] end
  | b :: r => let '(o, st') := d_step st b in o ++ utf8_decode_from st' r
  end.

Definition utf8_decode (bs : list N) : list N := utf8_decode_from d_init bs.

(** ** Base64 *)

Definition b64char (v : N) : N :=
  if v <? 26 then 65 + v
  else if v <? 52 then 97 + (v - 26)
  else if v <? 62 then 48 + (v - 52)
  else if v =? 62 then 43
  else 47.

(** Standard alphabet, with ['='] padding: [digest('base64')],
    [buf.toString('base64')] and [btoa] on a byte string. *)
Fixpoint base64_encode (bs : list N) : list N :=
  match bs with
  | [] => []
  | [a] => [b64char (a / 4); b64char ((a mod 4) * 16); 61; 61]
  | [a; b] =>
    [b64char (a / 4); b64char ((a mod 4) * 16 + b / 16);
     b64char ((b mod 16) * 4); 61]
  | a :: b :: c :: r =>
    b64char (a / 4) :: b64char ((a mod 4) * 16 + b / 16)
      :: b64char ((b mod 16) * 4 + c / 64) :: b64char (c mod 64)
      :: base64_encode r
  end.

(** The value of a base64 character; Node also reads the URL-safe ['-'] and
    ['_']. *)
Definition unbase64 (urlsafe : bool) (c : N) : option N :=
  if (65 <=? c) && (c <=? 90) then Some (c - 65)
  else if (97 <=? c) && (c <=? 122) then Some (c - 97 + 26)
  else if (48 <=? c) && (c <=? 57) then Some (c - 48 + 52)
  else if c =? 43 then Some 62
  else if c =? 47 then Some 63
  else if urlsafe && (c =? 45) then Some 62
  else if urlsafe && (c =? 95) then Some 63
  else None.

(** Sextets to bytes; an incomplete last group gives the bytes it covers
    and its left-over bits are dropped. *)
Fixpoint sextets_to_bytes (vs : list N) : list N :=
  match vs with
  | a :: b :: c :: d :: r =>
    (a * 4 + b / 16) :: ((b mod 16) * 16 + c / 4) :: ((c mod 4) * 64 + d)
      :: sextets_to_bytes r
  | [a; b; c] => [a * 4 + b / 16; (b mod 16) * 16 + c / 4]
  | [a; b] => [a * 4 + b / 16]
  | _ => []
  end.

(** [Buffer.from(str, 'base64')]: never fails; characters outside the
    alphabet are skipped and the first ['='] ends the input. *)
Fixpoint node_sextets (s : list N) : list N :=
  match s with
  | [] => []
  | c :: r =>
    if c =? 61 then []
    else match unbase64 true c with
         | Some v => v :: node_sextets r
         | None => node_sextets r
         end
  end.

Definition buffer_from_base64 (s : list N) : list N :=
  sextets_to_bytes (node_sextets s).

(** [atob]: the forgiving-base64 decode of the Infra standard. ASCII
    whitespace is removed, one or two trailing ['='] are removed when the
    length is a multiple of four, and then a length of 1 modulo 4 or any
    character outside the standard alphabet is an error
    (InvalidCharacterError). The result is a byte string. *)
Definition is_ascii_ws (c : N) : bool :=
  (c =? 9) || (c =? 10) || (c =? 12) || (c =? 13) || (c =? 32).

Definition strip_pad (s : list N) : list N :=
  if (N.of_nat (length s) mod 4 =? 0) then
    match rev s with
    | 61 :: 61 :: r => rev r
    | 61 :: r => rev r
    | _ => s
    end
  else s.

Fixpoint all_sextets (s : list N) : option (list N) :=
  match s with
  | [] => Some []
  | c :: r =>
    match unbase64 false c, all_sextets r with
    | Some v, Some vs => Some (v :: vs)
    | _, _ => None
    end
  end.

Definition atob (s : list N) : option (list N) :=
  let s1 := strip_pad (List.filter (fun c => negb (is_ascii_ws c)) s) in
  if (N.of_nat (length s1) mod 4 =? 1) then None
  else option_map sextets_to_bytes (all_sextets s1).

(** [String.prototype.replace] with a one-character global pattern. *)
Definition replace_all (from to : N) (s : list N) : list N :=
  map (fun c => if c =? from then to else c) s.

(** The same with the empty replacement. *)
Definition remove_all (ch : N) (s : list N) : list N :=
  List.filter (fun c => negb (c =? ch)) s.

(** [str.split('.')]: the pieces between the separators, at least one. *)
Fixpoint split_on (sep : N) (s : list N) : list (list N) :=
  match s with
  | [] => [[]]
  | c :: r =>
    if c =? sep then [] :: split_on sep r
    else match split_on sep r with
         | p :: ps => (c :: p) :: ps
         | [] => [[c]]
         end
  end.

Fixpoint starts_with (p s : list N) : bool :=
  match p, s with
  | [], _ => true
  | a :: p', b :: s' => (a =? b) && starts_with p' s'
  | _ :: _, [] => false
  end.

(** [str.includes(ch)] for a one-character needle. *)
Definition includes_char (ch : N) (s : list N) : bool := existsb (N.eqb ch) s.

(** ** SHA-256 (FIPS 180-4) and HMAC (RFC 2104) *)

Definition w32 (x : N) : N := x mod 4294967296.
Definition add32 (x y : N) : N := w32 (x + y).
Definition rotr (n x : N) : N := N.lor (N.shiftr x n) (w32 (N.shiftl x (32 - n))).
Definition not32 (x : N) : N := N.lxor x 0xFFFFFFFF.

Definition Ch (x y z : N) : N := N.lxor (N.land x y) (N.land (not32 x) z).
Definition Maj (x y z : N) : N :=
  N.lxor (N.lxor (N.land x y) (N.land x z)) (N.land y z).
Definition bsig0 (x : N) : N := N.lxor (N.lxor (rotr 2 x) (rotr 13 x)) (rotr 22 x).
Definition bsig1 (x : N) : N := N.lxor (N.lxor (rotr 6 x) (rotr 11 x)) (rotr 25 x).
Definition ssig0 (x : N) : N := N.lxor (N.lxor (rotr 7 x) (rotr 18 x)) (N.shiftr x 3).
Definition ssig1 (x : N) : N := N.lxor (N.lxor (rotr 17 x) (rotr 19 x)) (N.shiftr x 10).

(** The constants of FIPS 180-4, sections 4.2.2 and 5.3.3, from their
    definition: the first thirty-two bits of the fractional parts of the cube
    roots of the first sixty-four primes, and of the square roots of the first
    eight. [root_bits k n] is the integer [k]-th root of [n], found bit by
    bit. *)
Definition is_prime (n : N) : bool :=
  (1 <? n)
  && forallb (fun d => negb (n mod d =? 0)) (map N.of_nat (seq 2 (N.to_nat n - 2))).

Definition primes (count : nat) : list N :=
  firstn count (List.filter is_prime (map N.of_nat (seq 2 310))).

Fixpoint root_bits (k n : N) (bit : nat) (r : N) : N :=
  match bit with
  | O => r
  | S b => let r' := r + 2 ^ N.of_nat b in
           root_bits k n b (if r' ^ k <=? n then r' else r)
  end.

Definition frac_root (k p : N) : N := w32 (root_bits k (p * 2 ^ (32 * k)) 36 0).

Definition round_constants : list N :=
  Eval vm_compute in map (frac_root 3) (primes 64).

Definition initial_hash : list N :=
  Eval vm_compute in map (frac_root 2) (primes 8).

(** Big-endian bytes of a number, [n] of them. *)
Fixpoint be_bytes (n : nat) (x : N) : list N :=
  match n with
  | O => []
  | S k => be_bytes k (x / 256) ++ [x mod 256]
  end.

Definition be_value (bs : list N) : N := fold_left (fun a b => a * 256 + b) bs 0.

Definition sha_pad (msg : list N) : list N :=
  let len := length msg in
  let zeros := ((55 + 64 - len mod 64) mod 64)%nat in
  msg ++ [0x80] ++ repeat 0 zeros ++ be_bytes 8 (N.of_nat len * 8).

(** The list cut into pieces of [n] elements, the last one possibly short. *)
Fixpoint chunks_fuel (fuel n : nat) {A} (l : list A) : list (list A) :=
  match fuel, l with
  | O, _ | _, [] => []
  | S f, _ => firstn n l :: chunks_fuel f n (skipn n l)
  end.
Definition chunks {A} (n : nat) (l : list A) : list (list A) :=
  chunks_fuel (length l) n l.

(** The message schedule, most recent word first. *)
Fixpoint extend_schedule (k : nat) (rw : list N) : list N :=
  match k with
  | O => rw
  | S k' =>
    let wt := add32 (add32 (ssig1 (nth 1 rw 0)) (nth 6 rw 0))
                    (add32 (ssig0 (nth 14 rw 0)) (nth 15 rw 0)) in
    extend_schedule k' (wt :: rw)
  end.

Definition schedule (block : list N) : list N :=
  rev (extend_schedule 48 (rev (map be_value (chunks 4 block)))).

Definition sha_round (st : list N) (kw : N * N) : list N :=
  match st with
  | [a; b; c; d; e; f; g; h] =>
    let t1 := add32 (add32 (add32 h (bsig1 e)) (add32 (Ch e f g) (fst kw))) (snd kw) in
    let t2 := add32 (bsig0 a) (Maj a b c) in
    [add32 t1 t2; a; b; c; add32 d t1; e; f; g]
  | _ => st
  end.

Definition zip_with {A B C} (f : A -> B -> C) : list A -> list B -> list C :=
  fix go l1 l2 :=
    match l1, l2 with
    | x :: r1, y :: r2 => f x y :: go r1 r2
    | _, _ => []
    end.

Definition compress (h : list N) (block : list N) : list N :=
  zip_with add32 h
    (fold_left sha_round (zip_with pair round_constants (schedule block)) h).

Definition sha256 (msg : list N) : list N :=
  flat_map (be_bytes 4) (fold_left compress (chunks 64 (sha_pad msg)) initial_hash).

Definition hmac_sha256 (key msg : list N) : list N :=
  let k0 := if (64 <? length key)%nat then sha256 key else key in
  let k := k0 ++ repeat 0 (64 - length k0) in
  sha256 (map (N.lxor 0x5c) k ++ sha256 (map (N.lxor 0x36) k ++ msg)).

(** Lower-case hexadecimal of a byte string: [digest('hex')],
    [buf.toString('hex')]. *)
Definition hexdigit (v : N) : N := if v <? 10 then 48 + v else 87 + v.
Definition hex (bs : list N) : list N :=
  flat_map (fun b => [hexdigit (b / 16); hexdigit (b mod 16)]) bs.

(** ** JSON

    The values [JSON.parse] can return. A number is kept as its exact decimal
    value: an integer, or [m / 10^k] with [m] not a multiple of ten.
    JavaScript rounds number literals to binary64; the two readings agree on
    the integers below 2^53 in absolute value, which is all the token codec
    writes. An object is its list of own properties in enumeration order. *)

Inductive json :=
| JNull
| JBool (b : bool)
| JInt (z : Z)
| JFrac (m : Z) (k : positive)
| JStr (s : list N)
| JArr (l : list json)
| JObj (l : list (list N * json)).

(** A JavaScript value read from parsed JSON: [None] is [undefined]. *)
Abbreviation jsvalue := (option json) (only parsing).

(** *** Decimal digits *)

Definition is_digit (c : N) : bool := (48 <=? c) && (c <=? 57).

Fixpoint digits_aux (fuel : nat) (n : N) (acc : list N) : list N :=
  match fuel with
  | O => acc
  | S f =>
    if n <? 10 then (48 + n) :: acc
    else digits_aux f (n / 10) ((48 + n mod 10) :: acc)
  end.

Definition digits (n : N) : list N := digits_aux (S (N.to_nat (N.log2 n))) n [].

Definition dval_from (a : N) (ds : list N) : N :=
  fold_left (fun a c => a * 10 + (c - 48)) ds a.
Definition dval (ds : list N) : N := dval_from 0 ds.

Fixpoint span_digits (s : list N) : list N * list N :=
  match s with
  | c :: r =>
    if is_digit c then let '(d, t) := span_digits r in (c :: d, t) else ([], s)
  | [] => ([], [])
  end.

(** *** Object properties

    [CreateDataProperty]: an existing key keeps its place and takes the new
    value; a new array-index key goes among the index keys in ascending
    order, any other new key goes last. *)

Definition array_index (k : list N) : option N :=
  match k with
  | [] => None
  | c :: r =>
    if forallb is_digit k
       && implb (c =? 48) (match r with [] => true | _ => false end)
       && (dval k <? 4294967295)
    then Some (dval k) else None
  end.

Fixpoint has_key {A} (k : list N) (l : list (list N * A)) : bool :=
  match l with
  | [] => false
  | (k', _) :: r => streq k k' || has_key k r
  end.

Fixpoint replace_key {A} (k : list N) (v : A) (l : list (list N * A)) : list (list N * A) :=
  match l with
  | [] => []
  | (k', v') :: r => if streq k k' then (k', v) :: r else (k', v') :: replace_key k v r
  end.

Fixpoint insert_index {A} (i : N) (k : list N) (v : A) (l : list (list N * A)) : list (list N * A) :=
  match l with
  | [] => [(k, v)]
  | (k', v') :: r =>
    match array_index k' with
    | Some j => if j <? i then (k', v') :: insert_index i k v r else (k, v) :: l
    | None => (k, v) :: l
    end
  end.

Definition obj_set {A} (k : list N) (v : A) (l : list (list N * A)) : list (list N * A) :=
  if has_key k l then replace_key k v l
  else match array_index k with
       | Some i => insert_index i k v l
       | None => l ++ [(k, v)]
       end.

Fixpoint obj_get {A} (k : list N) (l : list (list N * A)) : option A :=
  match l with
  | [] => None
  | (k', v) :: r => if streq k k' then Some v else obj_get k r
  end.

(** *** JSON.parse *)

Definition is_json_ws (c : N) : bool :=
  (c =? 32) || (c =? 9) || (c =? 10) || (c =? 13).

Fixpoint skip_ws (s : list N) : list N :=
  match s with
  | c :: r => if is_json_ws c then skip_ws r else s
  | [] => []
  end.

Definition hexval (c : N) : option N :=
  if is_digit c then Some (c - 48)
  else if (97 <=? c) && (c <=? 102) then Some (c - 87)
  else if (65 <=? c) && (c <=? 70) then Some (c - 55)
  else None.

Definition parse_hex4 (s : list N) : option (N * list N) :=
  match s with
  | a :: b :: c :: d :: r =>
    match hexval a, hexval b, hexval c, hexval d with
    | Some x, Some y, Some z, Some w => Some (((x * 16 + y) * 16 + z) * 16 + w, r)
    | _, _, _, _ => None
    end
  | _ => None
  end.

Definition unescape (c : N) : option N :=
  if c =? 34 then Some 34 else if c =? 92 then Some 92
  else if c =? 47 then Some 47 else if c =? 98 then Some 8
  else if c =? 102 then Some 12 else if c =? 110 then Some 10
  else if c =? 114 then Some 13 else if c =? 116 then Some 9
  else None.

(** The characters of a string literal after its opening quote. *)
Fixpoint parse_chars (fuel : nat) (s : list N) : option (list N * list N) :=
  match fuel with
  | O => None
  | S f =>
    match s with
    | [] => None
    | c :: r =>
      if c =? 34 then Some ([], r)
      else if c =? 92 then
        match r with
        | [] => None
        | e :: r' =>
          if e =? 117 then
            match parse_hex4 r' with
            | Some (u, r'') =>
              match parse_chars f r'' with
              | Some (t, rest) => Some (u :: t, rest)
              | None => None
              end
            | None => None
            end
          else match unescape e with
               | Some u =>
                 match parse_chars f r' with
                 | Some (t, rest) => Some (u :: t, rest)
                 | None => None
                 end
               | None => None
               end
        end
      else if c <? 32 then None
      else match parse_chars f r with
           | Some (t, rest) => Some (c :: t, rest)
           | None => None
           end
    end
  end.

Definition parse_string (s : list N) : option (list N * list N) :=
  match s with
  | 34 :: r => parse_chars (length r) r
  | _ => None
  end.

(** The number [m / 10^k] in lowest decimal terms. *)
Fixpoint lowest_terms (fuel : nat) (neg : bool) (m k : N) : json :=
  let sg := fun x : N => if neg then Z.opp (Z.of_N x) else Z.of_N x in
  match k with
  | 0 => JInt (sg m)
  | N.pos p =>
    match fuel with
    | O => JFrac (sg m) p
    | S f =>
      if m =? 0 then JInt 0%Z
      else if m mod 10 =? 0 then lowest_terms f neg (m / 10) (N.pred k)
      else JFrac (sg m) p
    end
  end.

Definition mk_number (neg : bool) (ds : list N) (e : Z) : json :=
  let m := dval ds in
  if (0 <=? e)%Z then
    JInt ((if neg then Z.opp (Z.of_N m) else Z.of_N m) * 10 ^ e)%Z
  else lowest_terms (length ds) neg m (Z.to_N (- e)).

Definition parse_fraction (s : list N) : option (list N * list N) :=
  match s with
  | 46 :: r =>
    match span_digits r with
    | ([], _) => None
    | (fd, t) => Some (fd, t)
    end
  | _ => Some ([], s)
  end.

Definition parse_exponent (s : list N) : option (Z * list N) :=
  match s with
  | c :: r =>
    if (c =? 101) || (c =? 69) then
      let '(neg, r') :=
        match r with
        | 43 :: t => (false, t)
        | 45 :: t => (true, t)
        | _ => (false, r)
        end in
      match span_digits r' with
      | ([], _) => None
      | (ed, t) => Some (if neg then (- Z.of_N (dval ed))%Z else Z.of_N (dval ed), t)
      end
    else Some (0%Z, s)
  | [] => Some (0%Z, [])
  end.

Definition parse_number (s : list N) : option (json * list N) :=
  let '(neg, s1) := match s with 45 :: r => (true, r) | _ => (false, s) end in
  match s1 with
  | c :: r1 =>
    if is_digit c then
      let '(ip, s2) := if c =? 48 then ([48], r1) else span_digits s1 in
      match parse_fraction s2 with
      | Some (fd, s3) =>
        match parse_exponent s3 with
        | Some (e, s4) =>
          Some (mk_number neg (ip ++ fd) (e - Z.of_nat (length fd)), s4)
        | None => None
        end
      | None => None
      end
    else None
  | [] => None
  end.

Definition expect (lit : list N) {A} (v : A) (s : list N) : option (A * list N) :=
  if starts_with lit s then Some (v, skipn (length lit) s) else None.

(** Recursive descent. A value costs at most two units of fuel before one
    of its characters is read, so twice the length of the text is never
    exhausted. *)
Fixpoint parse_value (fuel : nat) (s : list N) : option (json * list N) :=
  match fuel with
  | O => None
  | S f =>
    match skip_ws s with
    | [] => None
    | c :: r =>
      if c =? 123 then
        match skip_ws r with
        | 125 :: t => Some (JObj [], t)
        | _ =>
          match parse_members f [] r with
          | Some (ps, t) => Some (JObj ps, t)
          | None => None
          end
        end
      else if c =? 91 then
        match skip_ws r with
        | 93 :: t => Some (JArr [], t)
        | _ =>
          match parse_elements f r with
          | Some (vs, t) => Some (JArr vs, t)
          | None => None
          end
        end
      else if c =? 34 then
        match parse_string (c :: r) with
        | Some (str, t) => Some (JStr str, t)
        | None => None
        end
      else if c =? 116 then expect (js "true") (JBool true) (c :: r)
      else if c =? 102 then expect (js "false") (JBool false) (c :: r)
      else if c =? 110 then expect (js "null") JNull (c :: r)
      else parse_number (c :: r)
    end
  end
with parse_members (fuel : nat) (acc : list (list N * json)) (s : list N)
  : option (list (list N * json) * list N) :=
  match fuel with
  | O => None
  | S f =>
    match parse_string (skip_ws s) with
    | Some (k, s1) =>
      match skip_ws s1 with
      | 58 :: s2 =>
        match parse_value f s2 with
        | Some (v, s3) =>
          let acc' := obj_set k v acc in
          match skip_ws s3 with
          | 44 :: s4 => parse_members f acc' s4
          | 125 :: s4 => Some (acc', s4)
          | _ => None
          end
        | None => None
        end
      | _ => None
      end
    | None => None
    end
  end
with parse_elements (fuel : nat) (s : list N) : option (list json * list N) :=
  match fuel with
  | O => None
  | S f =>
    match parse_value f s with
    | Some (v, s1) =>
      match skip_ws s1 with
      | 44 :: s2 =>
        match parse_elements f s2 with
        | Some (vs, t) => Some (v :: vs, t)
        | None => None
        end
      | 93 :: s2 => Some ([v], s2)
      | _ => None
      end
    | None => None
    end
  end.

(** [JSON.parse]: [None] is a SyntaxError. *)
Definition JSON_parse (s : list N) : option json :=
  match parse_value (S (2 * length s)) s with
  | Some (v, t) => match skip_ws t with [] => Some v | _ => None end
  | None => None
  end.

(** *** Number to string ([Number::toString], radix 10) *)

Fixpoint drop_zeros (ds : list N) : list N :=
  match ds with
  | 48 :: r => drop_zeros r
  | _ => ds
  end.

Definition strip_trailing (ds : list N) : list N := rev (drop_zeros (rev ds)).

(** Scientific notation for the digits [ds] read as [0.ds * 10^n]. *)
Definition exp_form (ds : list N) (n : Z) : list N :=
  let e := (n - 1)%Z in
  let es := (if (e <? 0)%Z then 45 else 43) :: digits (Z.abs_N e) in
  match ds with
  | [] => []
  | [d] => d :: 101 :: es
  | d :: rest => d :: 46 :: rest ++ 101 :: es
  end.

Definition format_decimal (ds : list N) (n : Z) : list N :=
  let k := Z.of_nat (length ds) in
  if ((k <=? n) && (n <=? 21))%Z then ds ++ repeat 48 (Z.to_nat (n - k))
  else if ((0 <? n) && (n <=? 21))%Z then
    firstn (Z.to_nat n) ds ++ 46 :: skipn (Z.to_nat n) ds
  else if ((-6 <? n) && (n <=? 0))%Z then
    48 :: 46 :: repeat 48 (Z.to_nat (- n)) ++ ds
  else exp_form ds n.

Definition sign_prefix (z : Z) : list N := if (z <? 0)%Z then [45] else [].

(** An integer below 10^21 prints as its plain digits. *)
Definition int_to_string (z : Z) : list N :=
  let ds := digits (Z.abs_N z) in
  sign_prefix z ++
  (if (Z.abs z <? 10 ^ 21)%Z then ds
   else exp_form (strip_trailing ds) (Z.of_nat (length ds))).

Definition frac_to_string (m : Z) (k : positive) : list N :=
  let ds := digits (Z.abs_N m) in
  sign_prefix m ++ format_decimal ds (Z.of_nat (length ds) - Z.pos k).

(** *** JSON.stringify *)

Definition uescape (c : N) : list N :=
  [92; 117; hexdigit (c / 4096); hexdigit ((c / 256) mod 16);
   hexdigit ((c / 16) mod 16); hexdigit (c mod 16)].

(** [QuoteJSONString] without the quotes: the short escapes, [\u00xx] for
    the other control characters, [\udxxx] for a surrogate with no
    partner, everything else as it is. *)
Fixpoint quote_chars (s : list N) : list N :=
  match s with
  | [] => []
  | c :: r =>
    if c =? 34 then 92 :: 34 :: quote_chars r
    else if c =? 92 then 92 :: 92 :: quote_chars r
    else if c =? 8 then 92 :: 98 :: quote_chars r
    else if c =? 12 then 92 :: 102 :: quote_chars r
    else if c =? 10 then 92 :: 110 :: quote_chars r
    else if c =? 13 then 92 :: 114 :: quote_chars r
    else if c =? 9 then 92 :: 116 :: quote_chars r
    else if c <? 32 then uescape c ++ quote_chars r
    else if is_high c then
      match r with
      | d :: r' =>
        if is_low d then c :: d :: quote_chars r'
        else uescape c ++ quote_chars r
      | [] => uescape c
      end
    else if is_low c then uescape c ++ quote_chars r
    else c :: quote_chars r
  end.

Definition quote (s : list N) : list N := 34 :: quote_chars s ++ [34].

Fixpoint join (sep : list N) (l : list (list N)) : list N :=
  match l with
  | [] => []
  | [x] => x
  | x :: r => x ++ sep ++ join sep r
  end.

Fixpoint stringify (v : json) : list N :=
  match v with
  | JNull => js "null"
  | JBool true => js "true"
  | JBool false => js "false"
  | JInt z => int_to_string z
  | JFrac m k => frac_to_string m k
  | JStr s => quote s
  | JArr l => 91 :: join [44] (map stringify l) ++ [93]
  | JObj l =>
    123 :: join [44] (map (fun kv => quote (fst kv) ++ 58 :: stringify (snd kv)) l)
      ++ [125]
  end.

(** [JSON.stringify] of an object literal: a property whose value is
    [undefined] is left out. *)
Definition stringify_member (kv : list N * option json) : list (list N) :=
  match snd kv with
  | Some v => [quote (fst kv) ++ 58 :: stringify v]
  | None => []
  end.

Definition JSON_stringify_object (props : list (list N * option json)) : list N :=
  123 :: join [44] (flat_map stringify_member props) ++ [125].

(** *** Operators on parsed values *)

Inductive completion (A : Type) :=
| Normal (a : A)
| Throw.
Arguments Normal {A} a.
Arguments Throw {A}.

#[export] Instance completion_ret : MRet completion := fun _ a => Normal a.
#[export] Instance completion_bind : MBind completion := fun _ _ f c =>
  match c with
  | Normal a => f a
  | Throw => Throw
  end.

(** [try { ... } catch { return d }] *)
Definition try_catch {A} (c : completion A) (d : A) : A :=
  match c with
  | Normal a => a
  | Throw => d
  end.

(** [v.name] for a name that no built-in prototype defines (the sources
    read exp, isVerified, userId, email and role): a TypeError on [null],
    the own property of an object, [undefined] on anything else. *)
Definition get_prop (v : json) (name : list N) : completion (option json) :=
  match v with
  | JNull => Throw
  | JObj l => Normal (obj_get name l)
  | _ => Normal None
  end.

(** [String(v)] as [Array.prototype.join] uses it for the elements. *)
Fixpoint to_string (v : json) : list N :=
  match v with
  | JNull => js "null"
  | JBool true => js "true"
  | JBool false => js "false"
  | JInt z => int_to_string z
  | JFrac m k => frac_to_string m k
  | JStr s => s
  | JArr l =>
    join [44] (map (fun x => match x with JNull => [] | _ => to_string x end) l)
  | JObj _ => js "[object Object]"
  end.

(** Numbers as [ToNumber] yields them: [Fin m e] is [m * 10^e]. *)
Inductive number :=
| NaN
| Inf (negative : bool)
| Fin (m e : Z).

Definition is_js_ws (c : N) : bool :=
  ((9 <=? c) && (c <=? 13)) || (c =? 32) || (c =? 0xA0) || (c =? 0x1680)
  || ((0x2000 <=? c) && (c <=? 0x200A)) || (c =? 0x2028) || (c =? 0x2029)
  || (c =? 0x202F) || (c =? 0x205F) || (c =? 0x3000) || (c =? 0xFEFF).

Fixpoint trim_left (s : list N) : list N :=
  match s with
  | c :: r => if is_js_ws c then trim_left r else s
  | [] => []
  end.

Definition trim (s : list N) : list N := rev (trim_left (rev (trim_left s))).

Definition radix_value (radix : N) (s : list N) : option N :=
  match s with
  | [] => None
  | _ =>
    fold_left (fun acc c =>
      match acc, hexval c with
      | Some a, Some d => if d <? radix then Some (a * radix + d) else None
      | _, _ => None
      end) s (Some 0)
  end.

(** [StrDecimalLiteral] without its sign. *)
Definition str_unsigned_decimal (s : list N) : option (N * Z) :=
  let '(ip, s1) := span_digits s in
  let '(fd, s2) := match s1 with 46 :: r => span_digits r | _ => ([], s1) end in
  match ip ++ fd with
  | [] => None
  | ds =>
    match parse_exponent s2 with
    | Some (e, []) => Some (dval ds, (e - Z.of_nat (length fd))%Z)
    | _ => None
    end
  end.

Definition str_decimal (s : list N) : number :=
  let '(neg, s1) :=
    match s with
    | 43 :: r => (false, r)
    | 45 :: r => (true, r)
    | _ => (false, s)
    end in
  if streq s1 (js "Infinity") then Inf neg
  else match str_unsigned_decimal s1 with
       | Some (m, e) => Fin (if neg then - Z.of_N m else Z.of_N m)%Z e
       | None => NaN
       end.

(** [StringToNumber] *)
Definition string_to_number (s : list N) : number :=
  match trim s with
  | [] => Fin 0 0
  | 48 :: c :: r =>
    let lit radix :=
      match radix_value radix r with
      | Some n => Fin (Z.of_N n) 0
      | None => NaN
      end in
    if (c =? 120) || (c =? 88) then lit 16
    else if (c =? 111) || (c =? 79) then lit 8
    else if (c =? 98) || (c =? 66) then lit 2
    else str_decimal (48 :: c :: r)
  | t => str_decimal t
  end.

(** [ToNumber(ToPrimitive(v, number))]. An object with an own property
    called toString has no callable conversion left: TypeError. *)
Definition to_number (v : option json) : completion number :=
  match v with
  | None => Normal NaN
  | Some JNull => Normal (Fin 0 0)
  | Some (JBool b) => Normal (Fin (if b then 1 else 0) 0)
  | Some (JInt z) => Normal (Fin z 0)
  | Some (JFrac m k) => Normal (Fin m (Z.neg k))
  | Some (JStr s) => Normal (string_to_number s)
  | Some (JArr l) => Normal (string_to_number (to_string (JArr l)))
  | Some (JObj l) => if has_key (js "toString") l then Throw else Normal NaN
  end.

(** [x < n] for an integer [n]; a comparison with NaN is false. *)
Definition number_lt (x : number) (n : Z) : bool :=
  match x with
  | NaN => false
  | Inf negative => negative
  | Fin m e =>
    if (0 <=? e)%Z then (m * 10 ^ e <? n)%Z else (m <? n * 10 ^ (- e))%Z
  end.

Definition js_lt (v : option json) (n : Z) : completion bool :=
  x ← to_number v; mret (number_lt x n).

(** [ToBoolean] *)
Definition truthy (v : option json) : bool :=
  match v with
  | None | Some JNull => false
  | Some (JBool b) => b
  | Some (JInt z) => negb (z =? 0)%Z
  | Some (JStr s) => match s with [] => false | _ => true end
  | Some _ => true
  end.

(** ** Notions used in the statements and proofs *)

Definition ascii (s : list N) : Prop := Forall (fun c => c < 128) s.

(** Well-formed UTF-16: every surrogate is half of a pair. *)
Inductive usv : list N -> Prop :=
| usv_nil : usv []
| usv_bmp c s :
    c < 65536 -> is_high c = false -> is_low c = false -> usv s -> usv (c :: s)
| usv_pair c d s :
    is_high c = true -> is_low d = true -> usv s -> usv (c :: d :: s).

Definition no_dot (s : list N) : Prop := Forall (fun c => c <> 46) s.

Definition range (n : nat) : list N := map N.of_nat (seq 0 n).

(** The sextets of a byte string, the last group possibly short. *)
Fixpoint sextets_of (bs : list N) : list N :=
  match bs with
  | [] => []
  | [a] => [a / 4; (a mod 4) * 16]
  | [a; b] => [a / 4; (a mod 4) * 16 + b / 16; (b mod 16) * 4]
  | a :: b :: c :: r =>
    a / 4 :: (a mod 4) * 16 + b / 16 :: (b mod 16) * 4 + c / 64 :: c mod 64
      :: sextets_of r
  end.

Definition pad_of (bs : list N) : list N :=
  repeat 61 ((3 - length bs mod 3) mod 3)%nat.

(** A character of the standard alphabet in the URL-safe one, and back. *)
Definition url_char (c : N) : N :=
  let c1 := if c =? 43 then 45 else c in if c1 =? 47 then 95 else c1.
Definition std_char (c : N) : N :=
  let c1 := if c =? 45 then 43 else c in if c1 =? 95 then 47 else c1.


(** The decoder run over a prefix: its output and the state it is left in. *)
Fixpoint decode_run (st : dstate) (bs : list N) : list N * dstate :=
  match bs with
  | [] => ([], st)
  | b :: r =>
    let '(o, st') := d_step st b in
    let '(o', st'') := decode_run st' r in (o ++ o', st'')
  end.

Definition digit_chars (ds : list N) : Prop := Forall (fun c => is_digit c = true) ds.

(** The text after a number does not continue it. *)
Definition ends_number (rest : list N) : Prop :=
  match rest with
  | [] => True
  | c :: _ => is_digit c = false /\ c <> 46 /\ c <> 101 /\ c <> 69
  end.

Definition cons_char (c : N) (p : option (list N * list N)) : option (list N * list N) :=
  match p with
  | Some (t, rest) => Some (c :: t, rest)
  | None => None
  end.

(** Strings, booleans and integers: the values of a token payload. *)
Inductive simple : json -> Prop :=
| simple_str s : wf16 s -> simple (JStr s)
| simple_bool b : simple (JBool b)
| simple_int z : (Z.abs z < 10 ^ 21)%Z -> simple (JInt z).

Definition member_ok (kv : list N * json) : Prop := wf16 (fst kv) /\ simple (snd kv).

Definition member_text (kv : list N * json) : list N :=
  quote (fst kv) ++ 58 :: stringify (snd kv).

(** The properties [JSON.stringify] writes. *)
Definition members (props : list (list N * option json)) : list (list N * json) :=
  flat_map (fun kv => match snd kv with
                      | Some v => [(fst kv, v)]
                      | None => []
                      end) props.

(** The text after a member: a comma or the closing brace. *)
Definition delimiter (rest : list N) : Prop :=
  exists t, rest = 44 :: t \/ rest = 125 :: t.

Definition eight (h : list N) : Prop := length h = 8%nat.

(** ASCII lower case, a stand-in for [toLowerCase] in examples. *)
Definition ascii_lower (s : list N) : list N :=
  map (fun c => if (65 <=? c) && (c <=? 90) then c + 32 else c) s.

End JS.

(* ===================================================================== *)
(** * lib/auth/jwt.ts *)
(* ===================================================================== *)

Module Jwt.
Import JS.
Open Scope Z_scope.

(** The environment variables the codec reads; [None] is an unset one. *)
Record env := Env {
  env_JWT_SECRET : option (list N);
  env_JWT_EXPIRES_IN : option (list N);
  env_JWT_REFRESH_EXPIRES_IN : option (list N)
}.

(** [process.env.X || fallback]: the empty string is falsy too. *)
Definition or_default (v : option (list N)) (fallback : list N) : list N :=
  match v with
  | Some (c :: r) => c :: r
  | _ => fallback
  end.

Definition JWT_SECRET (e : env) : list N :=
  or_default (env_JWT_SECRET e) (js "fallback-secret-change-in-production").
Definition JWT_EXPIRES_IN (e : env) : list N :=
  or_default (env_JWT_EXPIRES_IN e) (js "15m").
Definition JWT_REFRESH_EXPIRES_IN (e : env) : list N :=
  or_default (env_JWT_REFRESH_EXPIRES_IN e) (js "7d").

Definition ACCESS_TOKEN_COOKIE : list N := js "access_token".
Definition REFRESH_TOKEN_COOKIE : list N := js "refresh_token".

(** interface TokenPayload, with the flag the login route adds to it *)
Record TokenPayload := {
  userId : list N;
  email : list N;
  role : list N;
  isVerified : option bool
}.

(** The object literal a caller builds from it. *)
Definition payload_object (p : TokenPayload) : list (list N * option json) :=
  [(js "userId", Some (JStr (userId p)));
   (js "email", Some (JStr (email p)));
   (js "role", Some (JStr (role p)))]
  ++ match isVerified p with
     | Some b => [(js "isVerified", Some (JBool b))]
     | None => []
     end.

(** Milliseconds of a duration such as 15m; the match is
    [/^(\d+)([smhd])$/]. *)
Definition parseDuration (duration : list N) : Z :=
  match span_digits duration with
  | (d :: ds, [unit]) =>
    let value := Z.of_N (dval (d :: ds)) in
    if (unit =? 115)%N then value * 1000
    else if (unit =? 109)%N then value * 60 * 1000
    else if (unit =? 104)%N then value * 60 * 60 * 1000
    else if (unit =? 100)%N then value * 24 * 60 * 60 * 1000
    else 15 * 60 * 1000
  | _ => 15 * 60 * 1000
  end.

Definition url_safe (s : list N) : list N :=
  remove_all 61 (replace_all 47 95 (replace_all 43 45 s)).

Definition base64urlEncode (str : list N) : list N :=
  url_safe (base64_encode (utf8_encode str)).

(** [while (str.length % 4) str += '='] *)
Definition pad4 (str : list N) : list N :=
  str ++ repeat 61%N ((4 - length str mod 4) mod 4)%nat.

Definition base64urlDecode (str : list N) : list N :=
  let str := replace_all 95 47 (replace_all 45 43 str) in
  utf8_decode (buffer_from_base64 (pad4 str)).

Definition createSignature (data secret : list N) : list N :=
  url_safe (base64_encode (hmac_sha256 (utf8_encode secret) (utf8_encode data))).

(** [Math.floor(Date.now() / 1000)] *)
Definition seconds (clock_ms : Z) : Z := clock_ms / 1000.

Definition header : list (list N * option json) :=
  [(js "alg", Some (JStr (js "HS256"))); (js "typ", Some (JStr (js "JWT")))].

(** [{ ...payload, iat: now, exp }] *)
Definition fullPayload (payload : list (list N * option json)) (now exp : Z)
  : list (list N * option json) :=
  obj_set (js "exp") (Some (JInt exp)) (obj_set (js "iat") (Some (JInt now)) payload).

Definition signToken (e : env) (clock_ms : Z)
    (payload : list (list N * option json)) (expiresIn : list N) : list N :=
  let now := seconds clock_ms in
  let exp := now + parseDuration expiresIn / 1000 in
  let encodedHeader := base64urlEncode (JSON_stringify_object header) in
  let encodedPayload :=
    base64urlEncode (JSON_stringify_object (fullPayload payload now exp)) in
  let signature :=
    createSignature (encodedHeader ++ 46%N :: encodedPayload) (JWT_SECRET e) in
  encodedHeader ++ 46%N :: encodedPayload ++ 46%N :: signature.

(** The body of the [try] block: [Normal None] is [return null]. *)
Definition verifyToken_try (e : env) (clock_ms : Z) (token : list N)
  : completion (option json) :=
  match split_on 46 token with
  | [encodedHeader; encodedPayload; signature] =>
    let expectedSignature :=
      createSignature (encodedHeader ++ 46%N :: encodedPayload) (JWT_SECRET e) in
    if negb (streq signature expectedSignature) then Normal None
    else
      match JSON_parse (base64urlDecode encodedPayload) with
      | None => Throw
      | Some payload =>
        exp ← get_prop payload (js "exp");
        expired ← js_lt exp (seconds clock_ms);
        if expired : bool then Normal None else Normal (Some payload)
      end
  | _ => Normal None
  end.

Definition verifyToken (e : env) (clock_ms : Z) (token : list N) : option json :=
  try_catch (verifyToken_try e clock_ms token) None.

Definition signAccessToken (e : env) (clock_ms : Z)
    (payload : list (list N * option json)) : list N :=
  signToken e clock_ms payload (JWT_EXPIRES_IN e).

Definition signRefreshToken (e : env) (clock_ms : Z)
    (payload : list (list N * option json)) : list N :=
  signToken e clock_ms payload (JWT_REFRESH_EXPIRES_IN e).

(** A cookie as [response.cookies.set] writes it (httpOnly, sameSite lax
    and path / are the same on every cookie of the application). *)
Record cookie := Cookie {
  cookie_name : list N;
  cookie_value : list N;
  cookie_maxAge : Z
}.

Definition setAuthCookies (e : env) (accessToken refreshToken : list N) : list cookie :=
  [Cookie ACCESS_TOKEN_COOKIE accessToken (parseDuration (JWT_EXPIRES_IN e) / 1000);
   Cookie REFRESH_TOKEN_COOKIE refreshToken
          (parseDuration (JWT_REFRESH_EXPIRES_IN e) / 1000)].


(** ** Notions used in the statements and proofs *)

(** The URL-safe substitution undone, as both verifiers do it. *)
Definition std (s : list N) : list N := replace_all 95 47 (replace_all 45 43 s).


(** The payload [verifyToken] decodes from a token signed for the claims
    [c] at second [now] with expiry [exp]. *)
Definition decoded (c : TokenPayload) (now exp : Z) : json :=
  JObj (members (payload_object c)
        ++ [(js "iat", JInt now); (js "exp", JInt exp)]).

Definition wf_claims (c : TokenPayload) : Prop :=
  wf16 (userId c) /\ wf16 (email c) /\ wf16 (role c).

(** Integers that binary64 represents exactly. *)
Definition safe_integer (z : Z) : Prop := Z.abs z <= 2 ^ 53.

(** The claims of a refreshed token. *)
Definition without_flag (c : TokenPayload) : TokenPayload :=
  {| userId := userId c; email := email c; role := role c; isVerified := None |}.

(** Both verifiers read the same secret: JWT_SECRET is set and not empty. *)
Definition shared_secret (e : env) : Prop :=
  exists c s, env_JWT_SECRET e = Some (c :: s).



End Jwt.

(* ===================================================================== *)
(** * middleware.ts *)
(* ===================================================================== *)

Module Edge.
Import JS.
Open Scope Z_scope.

Definition ACCESS_TOKEN_COOKIE : list N := js "access_token".

Definition protectedRoutes : list (list N) := [js "/dashboard"].
Definition authRoutes : list (list N) := [js "/login"; js "/register"].

Definition JWT_SECRET (e : Jwt.env) : list N :=
  Jwt.or_default (Jwt.env_JWT_SECRET e) (js "fallback-secret").

Record tokenResult := TokenResult {
  valid : bool;
  isVerified : option json
}.

Definition invalid : tokenResult := TokenResult false None.

Definition verifyTokenEdge_try (e : Jwt.env) (clock_ms : Z) (token : list N)
  : completion tokenResult :=
  match split_on 46 token with
  | [encodedHeader; encodedPayload; signature] =>
    let data := utf8_encode (encodedHeader ++ 46%N :: encodedPayload) in
    let keyData := utf8_encode (JWT_SECRET e) in
    let signatureBuffer := hmac_sha256 keyData data in
    let expectedSignature :=
      remove_all 61 (replace_all 47 95 (replace_all 43 45
        (base64_encode signatureBuffer))) in
    if negb (streq signature expectedSignature) then Normal invalid
    else
      match atob (replace_all 95 47 (replace_all 45 43 encodedPayload)) with
      | None => Throw
      | Some text =>
        match JSON_parse text with
        | None => Throw
        | Some payload =>
          exp ← get_prop payload (js "exp");
          expired ← js_lt exp (Jwt.seconds clock_ms);
          if expired : bool then Normal invalid
          else
            flag ← get_prop payload (js "isVerified");
            Normal (TokenResult true flag)
        end
      end
  | _ => Normal invalid
  end.

Definition verifyTokenEdge (e : Jwt.env) (clock_ms : Z) (token : list N) : tokenResult :=
  try_catch (verifyTokenEdge_try e clock_ms token) invalid.

Record request := Request {
  pathname : list N;
  access_cookie : option (list N)
}.

Inductive response :=
| Next
| Redirect (path : list N) (searchParams : list (list N * list N)).

Definition middleware (e : Jwt.env) (clock_ms : Z) (req : request) : response :=
  let pathname := pathname req in
  if starts_with (js "/_next") pathname
     || starts_with (js "/api/auth") pathname
     || includes_char 46 pathname
  then Next
  else
    let accessToken := access_cookie req in
    let tokenResult :=
      match accessToken with
      | Some (c :: t) => verifyTokenEdge e clock_ms (c :: t)
      | _ => TokenResult false (Some (JBool false))
      end in
    let isAuthenticated := valid tokenResult in
    let isProtectedRoute :=
      existsb (fun route => starts_with route pathname) protectedRoutes in
    let isAuthRoute :=
      existsb (fun route => streq pathname route || starts_with route pathname)
              authRoutes in
    if isProtectedRoute && (negb isAuthenticated || negb (truthy (isVerified tokenResult)))
    then Redirect (js "/login") [(js "redirect", pathname)]
    else if isAuthRoute && isAuthenticated && truthy (isVerified tokenResult)
    then Redirect (js "/dashboard") []
    else Next.

(** ** Notions used in the statements and proofs *)

(** The route classes of the guard. *)
Definition bypassed (pathname : list N) : bool :=
  starts_with (js "/_next") pathname
  || starts_with (js "/api/auth") pathname
  || includes_char 46 pathname.

Definition is_protected (pathname : list N) : bool :=
  existsb (fun route => starts_with route pathname) protectedRoutes.

Definition is_auth_only (pathname : list N) : bool :=
  existsb (fun route => streq pathname route || starts_with route pathname) authRoutes.

(** What the guard learns from the cookie. *)
Definition session (e : Jwt.env) (clock_ms : Z) (cookie : option (list N)) : tokenResult :=
  match cookie with
  | Some (c :: t) => verifyTokenEdge e clock_ms (c :: t)
  | _ => TokenResult false (Some (JBool false))
  end.

Definition verified (r : tokenResult) : bool := valid r && truthy (isVerified r).

End Edge.

(* ===================================================================== *)
(** * lib/auth/rateLimit.ts *)
(* ===================================================================== *)

Module RateLimit.
Import JS.
Open Scope Z_scope.

Record RateLimitEntry := Entry {
  count : Z;
  resetTime : Z
}.

Record RateLimitConfig := Config {
  windowMs : Z;
  maxRequests : Z
}.

Record verdict := Verdict {
  allowed : bool;
  remaining : Z;
  resetIn : Z
}.

Module RATE_LIMIT_CONFIGS.
Definition auth := Config (15 * 60 * 1000) 10.
Definition login := Config (15 * 60 * 1000) 5.
Definition register := Config (60 * 60 * 1000) 3.
Definition passwordReset := Config (60 * 60 * 1000) 3.
Definition api := Config (60 * 1000) 100.
End RATE_LIMIT_CONFIGS.

(** The module-level [rateLimitStore] is threaded through as a value. *)
Abbreviation store := (gmap (list N) RateLimitEntry) (only parsing).

Definition cleanup (now : Z) (s : store) : store :=
  filter (fun kv => negb (resetTime (snd kv) <? now) = true) s.

Definition checkRateLimit (key : list N) (config : RateLimitConfig) (now : Z)
    (s : store) : verdict * store :=
  match s !! key with
  | Some entry =>
    if resetTime entry <? now then
      (Verdict true (maxRequests config - 1) (windowMs config),
       <[key := Entry 1 (now + windowMs config)]> s)
    else
      let entry' := Entry (count entry + 1) (resetTime entry) in
      let s' := <[key := entry']> s in
      if count entry' >? maxRequests config then
        (Verdict false 0 (resetTime entry' - now), s')
      else
        (Verdict true (maxRequests config - count entry') (resetTime entry' - now), s')
  | None =>
    (Verdict true (maxRequests config - 1) (windowMs config),
     <[key := Entry 1 (now + windowMs config)]> s)
  end.

Definition getRateLimitKey (identifier endpoint : list N) : list N :=
  endpoint ++ 58%N :: identifier.

Definition resetRateLimit (key : list N) (s : store) : store := delete key s.


(** ** Notions used in the statements and proofs *)

(** The window of [key] is closed in [s] at [now]: no entry, or one whose
    reset time has passed. *)
Definition fresh_at (key : list N) (now : Z) (s : store) : Prop :=
  match s !! key with
  | None => True
  | Some entry => resetTime entry < now
  end.

(** The verdict of a call that finds [count] earlier calls in its window. *)
Definition verdict_after (config : RateLimitConfig) (count left : Z) : verdict :=
  if count + 1 >? maxRequests config then Verdict false 0 left
  else Verdict true (maxRequests config - (count + 1)) left.

End RateLimit.

(* ===================================================================== *)
(** * lib/auth/email.ts and lib/models/User.ts *)
(* ===================================================================== *)

Module Store.
Import JS.
Open Scope Z_scope.

(** [crypto.randomBytes(32).toString('hex')]; the random bytes are an
    input of the caller. *)
Definition generateToken (random : list N) : list N := hex random.

(** [createHash('sha256').update(token).digest('hex')] *)
Definition hashToken (token : list N) : list N := hex (sha256 (utf8_encode token)).

(** interface IUser, with the document id; dates are clock readings. *)
Record User := {
  _id : list N;
  name : list N;
  email : list N;
  password : list N;
  avatar : option (list N);
  role : list N;
  reputation : Z;
  isVerified : bool;
  verificationToken : option (list N);
  resetPasswordToken : option (list N);
  resetPasswordExpires : option Z;
  lastLoginAt : option Z;
  updatedAt : Z
}.

(** Assignments to the fields of a document. *)
Definition set_password (v : list N) (u : User) : User :=
  {| _id := _id u; name := name u; email := email u; password := v;
     avatar := avatar u; role := role u; reputation := reputation u;
     isVerified := isVerified u; verificationToken := verificationToken u;
     resetPasswordToken := resetPasswordToken u;
     resetPasswordExpires := resetPasswordExpires u;
     lastLoginAt := lastLoginAt u; updatedAt := updatedAt u |}.

Definition set_isVerified (v : bool) (u : User) : User :=
  {| _id := _id u; name := name u; email := email u; password := password u;
     avatar := avatar u; role := role u; reputation := reputation u;
     isVerified := v; verificationToken := verificationToken u;
     resetPasswordToken := resetPasswordToken u;
     resetPasswordExpires := resetPasswordExpires u;
     lastLoginAt := lastLoginAt u; updatedAt := updatedAt u |}.

Definition set_verificationToken (v : option (list N)) (u : User) : User :=
  {| _id := _id u; name := name u; email := email u; password := password u;
     avatar := avatar u; role := role u; reputation := reputation u;
     isVerified := isVerified u; verificationToken := v;
     resetPasswordToken := resetPasswordToken u;
     resetPasswordExpires := resetPasswordExpires u;
     lastLoginAt := lastLoginAt u; updatedAt := updatedAt u |}.

Definition set_resetPasswordToken (v : option (list N)) (u : User) : User :=
  {| _id := _id u; name := name u; email := email u; password := password u;
     avatar := avatar u; role := role u; reputation := reputation u;
     isVerified := isVerified u; verificationToken := verificationToken u;
     resetPasswordToken := v;
     resetPasswordExpires := resetPasswordExpires u;
     lastLoginAt := lastLoginAt u; updatedAt := updatedAt u |}.

Definition set_resetPasswordExpires (v : option Z) (u : User) : User :=
  {| _id := _id u; name := name u; email := email u; password := password u;
     avatar := avatar u; role := role u; reputation := reputation u;
     isVerified := isVerified u; verificationToken := verificationToken u;
     resetPasswordToken := resetPasswordToken u;
     resetPasswordExpires := v;
     lastLoginAt := lastLoginAt u; updatedAt := updatedAt u |}.

Definition set_lastLoginAt (v : option Z) (u : User) : User :=
  {| _id := _id u; name := name u; email := email u; password := password u;
     avatar := avatar u; role := role u; reputation := reputation u;
     isVerified := isVerified u; verificationToken := verificationToken u;
     resetPasswordToken := resetPasswordToken u;
     resetPasswordExpires := resetPasswordExpires u;
     lastLoginAt := v; updatedAt := updatedAt u |}.

Definition set_updatedAt (v : Z) (u : User) : User :=
  {| _id := _id u; name := name u; email := email u; password := password u;
     avatar := avatar u; role := role u; reputation := reputation u;
     isVerified := isVerified u; verificationToken := verificationToken u;
     resetPasswordToken := resetPasswordToken u;
     resetPasswordExpires := resetPasswordExpires u;
     lastLoginAt := lastLoginAt u; updatedAt := v |}.

(** A message handed to [sendEmail]. *)
Inductive mail_kind := VerificationMail | PasswordResetMail.

Record mail := Mail {
  mail_kind_of : mail_kind;
  mail_to : list N;
  mail_name : list N;
  mail_token : list N
}.

(** [Model.findOne(filter)]: the first document that matches. *)
Definition findOne (filter : User -> bool) (users : list User) : option User :=
  List.find filter users.

(** A stored string field against a query value; an absent field matches
    no string. *)
Definition field_is (a : option (list N)) (b : list N) : bool :=
  match a with
  | Some x => streq x b
  | None => false
  end.

Section Bcrypt.
(** bcryptjs: [hash(password, salt)]. *)
Variable bcrypt_hash : list N -> list N -> list N.

(** [UserSchema.pre('save')]: the password is hashed only when it was
    modified; [salt] is what [bcrypt.genSalt(12)] draws. *)
Definition pre_save (password_modified : bool) (salt : list N) (doc : User) : User :=
  if negb password_modified then doc
  else set_password (bcrypt_hash (password doc) salt) doc.

(** [doc.save()]: the hook runs, the timestamp is set, and the stored
    document with the same [_id] is replaced. *)
Definition save (password_modified : bool) (salt : list N) (now : Z)
    (doc : User) (users : list User) : list User :=
  let doc' := set_updatedAt now (pre_save password_modified salt doc) in
  map (fun u => if streq (_id u) (_id doc) then doc' else u) users.

End Bcrypt.
End Store.

(* ===================================================================== *)
(** * app/api/auth: the route handlers *)
(* ===================================================================== *)

Module Routes.
Import JS Store.
Open Scope Z_scope.

Record response := Response {
  status : Z;
  body : list (list N * option json);
  headers : list (list N * list N);
  cookies : list Jwt.cookie
}.

(** [NextResponse.json(body, { status })] *)
Definition json_response (status : Z) (body : list (list N * option json)) : response :=
  Response status body [] [].

Definition message_body (success : bool) (message : string) : list (list N * option json) :=
  [(js "success", Some (JBool success)); (js "message", Some (JStr (js message)))].

Definition errors_body (success : bool) (message : string)
    (errors : list (list N * option string)) : list (list N * option json) :=
  message_body success message
  ++ [(js "errors",
       Some (JObj (flat_map (fun kv => match snd kv with
                                       | Some m => [(fst kv, JStr (js m))]
                                       | None => []
                                       end) errors)))].

Definition err (field message : string) : list N * option string :=
  (js field, Some message).

(** [field: cond ? message : undefined] *)
Definition err_if (cond : bool) (field message : string) : list N * option string :=
  (js field, if cond then Some message else None).

(** What a handler leaves behind: the user collection, the rate-limit
    store and the mails handed to the mailer. [dbConnect], [findOne] and
    [save] are taken to succeed (a rejection of one of them reaches the
    handler's catch and answers 500); [sendEmail] catches its own errors and
    never throws. *)
Record world := World {
  users : list User;
  limits : gmap (list N) RateLimit.RateLimitEntry;
  outbox : list mail
}.

(** Truthiness of a body field or cookie that is a string when present. *)
Definition present (v : option (list N)) : bool :=
  match v with
  | Some (_ :: _) => true
  | _ => false
  end.

Definition opt_json {A} (f : A -> json) (v : option A) : json :=
  match v with
  | Some a => f a
  | None => JNull
  end.

(** [String(Math.ceil(resetIn / 1000))] *)
Definition retry_after (resetIn : Z) : list (list N * list N) :=
  [(js "Retry-After", int_to_string (- ((- resetIn) / 1000)))].

(** ** refresh/route.ts

    The three clock readings are those of [verifyToken] and of the two
    [signToken] calls. *)
Definition refresh_POST (e : Jwt.env) (t_verify t_access t_refresh : Z)
    (refreshToken : option (list N)) : response :=
  try_catch
    (if negb (present refreshToken) then
       Normal (json_response 401 (message_body false "No refresh token provided"))
     else
       let decoded := Jwt.verifyToken e t_verify (default [] refreshToken) in
       if negb (truthy decoded) then
         Normal (json_response 401
                   (message_body false "Invalid or expired refresh token"))
       else
         let d := default JNull decoded in
         userId ← get_prop d (js "userId");
         email ← get_prop d (js "email");
         role ← get_prop d (js "role");
         let tokenPayload :=
           [(js "userId", userId); (js "email", email); (js "role", role)] in
         let newAccessToken := Jwt.signAccessToken e t_access tokenPayload in
         let newRefreshToken := Jwt.signRefreshToken e t_refresh tokenPayload in
         Normal (Response 200 (message_body true "Token refreshed successfully") []
                   (Jwt.setAuthCookies e newAccessToken newRefreshToken)))
    (json_response 500 (message_body false "An error occurred")).

(** ** login/route.ts: the token payload of a successful login
    (include isVerified for middleware checks) *)
Definition login_tokenPayload (user : User) : list (list N * option json) :=
  [(js "userId", Some (JStr (_id user)));
   (js "email", Some (JStr (Store.email user)));
   (js "role", Some (JStr (Store.role user)));
   (js "isVerified", Some (JBool (Store.isVerified user)))].

Section Handlers.
(** [String.prototype.toLowerCase] and bcryptjs are kept abstract. *)
Variable toLowerCase : list N -> list N.
Variable bcrypt_hash : list N -> list N -> list N.
Variable bcrypt_compare : list N -> list N -> bool.

(** ** login/route.ts

    The body is a JSON object whose fields, when present, are strings. *)
Record login_body := {
  login_email : option (list N);
  login_password : option (list N)
}.

Definition login_POST (e : Jwt.env) (now : Z) (ip : option (list N))
    (b : login_body) (w : world) : response * world :=
  let ip := Jwt.or_default ip (js "unknown") in
  let rateLimitKey := RateLimit.getRateLimitKey ip (js "login") in
  let '(rateLimit, limits1) :=
    RateLimit.checkRateLimit rateLimitKey RateLimit.RATE_LIMIT_CONFIGS.login
      now (limits w) in
  let w1 := World (users w) limits1 (outbox w) in
  if negb (RateLimit.allowed rateLimit) then
    (Response 429
       (message_body false "Too many login attempts. Please try again later.")
       (retry_after (RateLimit.resetIn rateLimit)) [], w1)
  else if negb (present (login_email b)) || negb (present (login_password b)) then
    (json_response 400
       (errors_body false "Email and password are required"
          [err_if (negb (present (login_email b))) "email" "Email is required";
           err_if (negb (present (login_password b))) "password"
                  "Password is required"]),
     w1)
  else
    let email := default [] (login_email b) in
    let password := default [] (login_password b) in
    match findOne (fun u => streq (Store.email u) (toLowerCase email)) (users w) with
    | None =>
      (json_response 401
         (errors_body false "Invalid credentials"
            [err "email" "No account found with this email"]), w1)
    | Some user =>
      if negb (bcrypt_compare password (Store.password user)) then
        (json_response 401
           (errors_body false "Invalid credentials"
              [err "password" "Incorrect password"]), w1)
      else if negb (Store.isVerified user) then
        (json_response 403
           (errors_body false "Please verify your email before logging in"
              [err "email"
                 "Email not verified. Check your inbox for the verification link."]
            ++ [(js "requiresVerification", Some (JBool true))]),
         w1)
      else
        let limits2 := RateLimit.resetRateLimit rateLimitKey limits1 in
        let user := set_lastLoginAt (Some now) user in
        let users' := save bcrypt_hash false [] now user (users w) in
        let tokenPayload := login_tokenPayload user in
        let accessToken := Jwt.signAccessToken e now tokenPayload in
        let refreshToken := Jwt.signRefreshToken e now tokenPayload in
        (Response 200
           (message_body true "Login successful"
            ++ [(js "data", Some (JObj
                  [(js "id", JStr (_id user)); (js "name", JStr (name user));
                   (js "email", JStr (Store.email user));
                   (js "avatar", opt_json JStr (avatar user));
                   (js "role", JStr (Store.role user));
                   (js "reputation", JInt (reputation user));
                   (js "isVerified", JBool (Store.isVerified user))]))])
           [] (Jwt.setAuthCookies e accessToken refreshToken),
         World users' limits2 (outbox w))
    end.

(** ** verify-email/route.ts, GET *)

Definition verify_email_GET (now : Z) (token : option (list N)) (w : world)
  : response * world :=
  if negb (present token) then
    (json_response 400 (message_body false "Verification token is required"), w)
  else
    let hashedToken := hashToken (default [] token) in
    match findOne (fun u => field_is (verificationToken u) hashedToken) (users w) with
    | None =>
      (json_response 400
         (message_body false "Invalid or expired verification token"), w)
    | Some user =>
      let user := set_isVerified true user in
      let user := set_verificationToken None user in
      (json_response 200
         (message_body true "Email verified successfully. You can now log in."),
       World (save bcrypt_hash false [] now user (users w)) (limits w) (outbox w))
    end.

(** ** forgot-password/route.ts

    [random] are the 32 bytes [generateToken] draws. *)
Definition successResponse : list (list N * option json) :=
  message_body true
    "If an account exists with that email, a password reset link has been sent.".

Definition forgot_password_POST (now : Z) (random : list N) (ip : option (list N))
    (email : option (list N)) (w : world) : response * world :=
  let ip := Jwt.or_default ip (js "unknown") in
  let rateLimitKey := RateLimit.getRateLimitKey ip (js "passwordReset") in
  let '(rateLimit, limits1) :=
    RateLimit.checkRateLimit rateLimitKey RateLimit.RATE_LIMIT_CONFIGS.passwordReset
      now (limits w) in
  let w1 := World (users w) limits1 (outbox w) in
  if negb (RateLimit.allowed rateLimit) then
    (Response 429 (message_body false "Too many requests. Please try again later.")
       (retry_after (RateLimit.resetIn rateLimit)) [], w1)
  else if negb (present email) then
    (json_response 400 (message_body false "Email is required"), w1)
  else
    let email := default [] email in
    match findOne (fun u => streq (Store.email u) (toLowerCase email)) (users w) with
    | None => (json_response 200 successResponse, w1)
    | Some user =>
      let resetToken := generateToken random in
      let hashedToken := hashToken resetToken in
      let user := set_resetPasswordToken (Some hashedToken) user in
      let user := set_resetPasswordExpires (Some (now + 60 * 60 * 1000)) user in
      let users' := save bcrypt_hash false [] now user (users w) in
      let sent := Mail PasswordResetMail (Store.email user) (name user) resetToken in
      (json_response 200 successResponse,
       World users' limits1 (outbox w ++ [sent]))
    end.

(** ** reset-password/route.ts

    The body is a JSON object whose fields, when present, are strings;
    [salt] is what [bcrypt.genSalt(12)] draws in the pre-save hook. *)
Record reset_body := {
  reset_token : option (list N);
  reset_password : option (list N)
}.

(** [{ resetPasswordToken: hashedToken, resetPasswordExpires: { $gt: now } }] *)
Definition reset_filter (hashedToken : list N) (now : Z) (u : User) : bool :=
  field_is (resetPasswordToken u) hashedToken
  && match resetPasswordExpires u with
     | Some expires => expires >? now
     | None => false
     end.

Definition reset_password_POST (now : Z) (salt : list N) (b : reset_body) (w : world)
  : response * world :=
  if negb (present (reset_token b)) || negb (present (reset_password b)) then
    (json_response 400
       (errors_body false "Token and password are required"
          [err_if (negb (present (reset_token b))) "token" "Reset token is required";
           err_if (negb (present (reset_password b))) "password"
                  "New password is required"]),
     w)
  else
    let token := default [] (reset_token b) in
    let password := default [] (reset_password b) in
    if Z.of_nat (length password) <? 8 then
      (json_response 400
         (errors_body false "Password too short"
            [err "password" "Password must be at least 8 characters"]), w)
    else
      let hashedToken := hashToken token in
      match findOne (reset_filter hashedToken now) (users w) with
      | None =>
        (json_response 400
           (errors_body false "Invalid or expired reset token"
              [err "token" "This reset link is invalid or has expired"]), w)
      | Some user =>
        let user := set_password password user in
        let user := set_resetPasswordToken None user in
        let user := set_resetPasswordExpires None user in
        (json_response 200
           (message_body true
              "Password reset successfully. You can now log in with your new password."),
         World (save bcrypt_hash true salt now user (users w)) (limits w) (outbox w))
      end.

(** ** Notions used in the statements and proofs *)

Definition reset_key (ip : option (list N)) : list N :=
  RateLimit.getRateLimitKey (Jwt.or_default ip (js "unknown")) (js "passwordReset").

(** The rate limiter lets the forgot-password request through. *)
Definition within_quota (now : Z) (ip : option (list N)) (w : world) : Prop :=
  RateLimit.allowed
    (fst (RateLimit.checkRateLimit (reset_key ip)
            RateLimit.RATE_LIMIT_CONFIGS.passwordReset now (limits w))) = true.

(** The account a request names. *)
Definition account (email : list N) (w : world) : option User :=
  findOne (fun u => streq (Store.email u) (toLowerCase email)) (users w).

Definition replace_user (user' : User) (us : list User) : list User :=
  map (fun u => if streq (_id u) (_id user') then user' else u) us.

(** The record [forgot_password_POST] saves for [user]. *)
Definition with_reset_token (now : Z) (random : list N) (user : User) : User :=
  set_updatedAt now
    (set_resetPasswordExpires (Some (now + 3600000))
       (set_resetPasswordToken (Some (hashToken (generateToken random))) user)).

(** The record [reset_password_POST] saves for [user]. *)
Definition with_new_password (now : Z) (salt password : list N) (user : User) : User :=
  set_updatedAt now
    (set_password (bcrypt_hash password salt)
       (set_resetPasswordExpires None
          (set_resetPasswordToken None (set_password password user)))).

(** The user still holds the verification token. *)
Definition holds_token (token : list N) (u : User) : bool :=
  field_is (verificationToken u) (hashToken token).

End Handlers.
End Routes.

(* ===================================================================== *)
(** * Concrete inputs *)
(* ===================================================================== *)

Module Examples.
Import JS Jwt.
Open Scope Z_scope.

Definition shared_env : env := Env (Some (js "shared-secret")) None None.

Definition alice : TokenPayload :=
  {| userId := js "65f0c0ffee"; email := js "alice@example.com";
     role := js "user"; isVerified := Some true |}.

(** The payload object with only an expiry, far in the future. *)
Definition far_expiry : list (list N * option json) :=
  [(js "exp", Some (JInt 9999999999))].


(** A correctly signed token whose first part is empty. *)
Definition headless_token : list N :=
  let encodedPayload := base64urlEncode (JSON_stringify_object far_expiry) in
  let data := 46%N :: encodedPayload in
  data ++ 46%N :: createSignature data (JWT_SECRET shared_env).

Definition verified_user : Store.User :=
  {| Store._id := js "65f0c0ffee"; Store.name := js "Alice";
     Store.email := js "alice@example.com";
     Store.password := js "$2a$12$stored.hash"; Store.avatar := None;
     Store.role := js "user"; Store.reputation := 0; Store.isVerified := true;
     Store.verificationToken := None; Store.resetPasswordToken := None;
     Store.resetPasswordExpires := None; Store.lastLoginAt := Some 1000000;
     Store.updatedAt := 1000000 |}.

(** The cookies a login at 1000 s leaves, and the answer to a refresh at
    2000 s. *)
Definition login_access_token : list N :=
  signAccessToken shared_env 1000000 (Routes.login_tokenPayload verified_user).
Definition login_refresh_token : list N :=
  signRefreshToken shared_env 1000000 (Routes.login_tokenPayload verified_user).
Definition rotated : Routes.response :=
  Routes.refresh_POST shared_env 2000000 2000000 2000000 (Some login_refresh_token).

Definition identity : list (list N * json) :=
  [(js "userId", JStr (js "65f0c0ffee")); (js "email", JStr (js "alice@example.com"));
   (js "role", JStr (js "user"))].

(** A stand-in for bcryptjs in examples. *)
Definition tagged_hash (password salt : list N) : list N :=
  js "$2a$12$" ++ salt ++ password.

(** Alice before she verified her address, holding the token "v-token". *)
Definition unverified_alice : Store.User :=
  Store.set_verificationToken (Some (Store.hashToken (js "v-token")))
    (Store.set_isVerified false verified_user).


Definition world_of (u : Store.User) : Routes.world := Routes.World [u] ∅ [].

End Examples.

(* ===================================================================== *)
(** * lib/models/User.ts (methods and statics), logout/route.ts and the
      resend of the verification mail *)
(* ===================================================================== *)

Module Account.
Import JS Store Routes.
Open Scope Z_scope.


Section Methods.
Variable toLowerCase : list N -> list N.
Variable bcrypt_hash : list N -> list N -> list N.
Variable bcrypt_compare : list N -> list N -> bool.

(** ** User.ts

    [UserSchema.methods.comparePassword]; bcryptjs is installed. *)
Definition comparePassword (candidatePassword : list N) (this : User) : bool :=
  bcrypt_compare candidatePassword (password this).

(** [UserSchema.methods.generateVerificationToken]: the token is returned,
    its hash is written to the document. *)
Definition generateVerificationToken (random : list N) (this : User) : list N * User :=
  let token := hex random in
  (token, set_verificationToken (Some (hex (sha256 (utf8_encode token)))) this).

(** [UserSchema.statics.findByEmail]. The parameter [toLowerCase] stands
    for everything the query value goes through before it is compared with
    the stored one; the properties hold for every such function. *)
Definition findByEmail (email : list N) (users : list User) : option User :=
  findOne (fun u => streq (Store.email u) (toLowerCase email)) users.

(** [UserSchema.statics.findByVerificationToken] *)
Definition findByVerificationToken (token : list N) (users : list User) : option User :=
  let hashedToken := hex (sha256 (utf8_encode token)) in
  findOne (fun u => field_is (verificationToken u) hashedToken) users.

(** ** verify-email/route.ts, POST: the verification mail sent again;
    [random] are the 32 bytes [generateToken] draws. *)
Definition verify_email_POST (now : Z) (random : list N) (email : option (list N))
    (w : world) : response * world :=
  if negb (present email) then
    (json_response 400 (message_body false "Email is required"), w)
  else
    let email := default [] email in
    match findOne (fun u => streq (Store.email u) (toLowerCase email)) (users w) with
    | None =>
      (json_response 200
         (message_body true "If an account exists, a verification email has been sent."),
       w)
    | Some user =>
      if Store.isVerified user then
        (json_response 200 (message_body true "Email is already verified."), w)
      else
        let verificationToken := generateToken random in
        let hashedToken := hashToken verificationToken in
        let user := set_verificationToken (Some hashedToken) user in
        let users' := save bcrypt_hash false [] now user (users w) in
        let sent := Mail VerificationMail (Store.email user) (name user)
                         verificationToken in
        (json_response 200
           (message_body true "Verification email sent. Please check your inbox."),
         World users' (limits w) (outbox w ++ [sent]))
    end.

End Methods.

(** ** Notions used in the statements and proofs *)

(** Lower-case hexadecimal digits. *)
Definition hex_char (c : N) : bool :=
  is_digit c || ((97 <=? c) && (c <=? 102))%N.


End Account.

(* ===================================================================== *)
(** * Runs of requests, and the notions of the further properties *)
(* ===================================================================== *)

Module Sessions.
Import JS Store Routes.
Open Scope Z_scope.

Section Attempts.
Variable toLowerCase : list N -> list N.
Variable bcrypt_hash : list N -> list N -> list N.
Variable bcrypt_compare : list N -> list N -> bool.

(** Successive login requests from one address, each at its clock
    reading. *)
Fixpoint login_attempts (e : Jwt.env) (ip : option (list N))
    (attempts : list (Z * login_body)) (w : world) : list response * world :=
  match attempts with
  | [] => ([], w)
  | (now, b) :: later =>
    let '(r, w1) := login_POST toLowerCase bcrypt_hash bcrypt_compare e now ip b w in
    let '(rs, w2) := login_attempts e ip later w1 in
    (r :: rs, w2)
  end.

End Attempts.

(** The key the login route counts an address under. *)
Definition login_key (ip : option (list N)) : list N :=
  RateLimit.getRateLimitKey (Jwt.or_default ip (js "unknown")) (js "login").

End Sessions.

Module Predicates.
Import JS Jwt.
Open Scope N_scope.

(** [String.prototype.toWellFormed]: every lone surrogate becomes U+FFFD. *)
Fixpoint toWellFormed (s : list N) : list N :=
  match s with
  | [] => []
  | c :: r =>
    if is_high c then
      match r with
      | d :: r' =>
        if is_low d then c :: d :: toWellFormed r' else 0xFFFD :: toWellFormed r
      | [] => [0xFFFD]
      end
    else if is_low c then 0xFFFD :: toWellFormed r
    else c :: toWellFormed r
  end.

(** The characters of base64url: letters, digits, [-] and [_]. *)
Definition base64url_char (c : N) : bool :=
  ((65 <=? c) && (c <=? 90)) || ((97 <=? c) && (c <=? 122))
  || ((48 <=? c) && (c <=? 57)) || (c =? 45) || (c =? 95).



(** Every stored count is at least one, as [checkRateLimit] writes them. *)
Definition counts_positive (s : gmap (list N) RateLimit.RateLimitEntry) : Prop :=
  map_Forall (fun _ entry => (1 <= RateLimit.count entry)%Z) s.

End Predicates.

Module Scenarios.
Import JS Jwt Examples.
Open Scope Z_scope.

(** A correctly signed token whose payload has no expiry. *)
Definition undated_token : list N :=
  let encodedHeader := base64urlEncode (JSON_stringify_object header) in
  let encodedPayload :=
    base64urlEncode (JSON_stringify_object [(js "userId", Some (JStr (js "u1")))]) in
  let data := encodedHeader ++ 46%N :: encodedPayload in
  data ++ 46%N :: createSignature data (JWT_SECRET shared_env).

End Scenarios.

(* ===================================================================== *)
(** * Properties of the runtime primitives *)
(* ===================================================================== *)

Module JSFacts.
Import JS.
Open Scope N_scope.

Ltac Zify.zify_post_hook ::= Z.to_euclidean_division_equations.

Lemma streq_spec (a b : list N) : streq a b = true <-> a = b.
Proof.
  revert b. induction a as [|x a IH]; intros [|y b]; simpl; try easy.
  rewrite andb_true_iff, N.eqb_eq, IH. split; [intros [-> ->]|intros [= -> ->]]; auto.
Qed.

Lemma streq_refl (a : list N) : streq a a = true.
Proof. by apply streq_spec. Qed.

Lemma streq_neq (a b : list N) : a <> b -> streq a b = false.
Proof. intros H. destruct (streq a b) eqn:E; [|done]. by apply streq_spec in E. Qed.

(** *** split *)

Lemma split_on_no_dot (s : list N) : no_dot s -> split_on 46 s = [s].
Proof.
  induction 1 as [|c s Hc _ IH]; [done|]. simpl.
  destruct (N.eqb_spec c 46); [done|]. by rewrite IH.
Qed.

Lemma split_on_app (a b : list N) :
  no_dot a -> split_on 46 (a ++ 46 :: b) = a :: split_on 46 b.
Proof.
  induction 1 as [|c a Hc _ IH]; [done|]. simpl.
  destruct (N.eqb_spec c 46); [done|]. by rewrite IH.
Qed.

Lemma split_three (h p sg : list N) :
  no_dot h -> no_dot p -> no_dot sg ->
  split_on 46 (h ++ 46 :: p ++ 46 :: sg) = [h; p; sg].
Proof.
  intros Hh Hp Hs. rewrite split_on_app by done. rewrite split_on_app by done.
  by rewrite split_on_no_dot.
Qed.

(** *** base64 *)

(** Induction three bytes at a time. *)
Lemma list_ind3 {A} (P : list A -> Prop) :
  P [] -> (forall a, P [a]) -> (forall a b, P [a; b]) ->
  (forall a b c r, P r -> P (a :: b :: c :: r)) ->
  forall l, P l.
Proof.
  intros H0 H1 H2 H3.
  assert (forall n l, (length l <= n)%nat -> P l) as H.
  { induction n as [|n IH]; intros l Hl.
    - destruct l; [done|simpl in Hl; lia].
    - destruct l as [|a [|b [|c r]]]; auto.
      apply H3, IH. simpl in Hl. lia. }
  intros l. by apply (H (length l)).
Qed.

Lemma base64_encode_sextets (bs : list N) :
  base64_encode bs = map b64char (sextets_of bs) ++ pad_of bs.
Proof.
  induction bs as [|a|a b|a b c r IH] using list_ind3; try done.
  change (base64_encode (a :: b :: c :: r)) with
    (b64char (a / 4) :: b64char ((a mod 4) * 16 + b / 16)
      :: b64char ((b mod 16) * 4 + c / 64) :: b64char (c mod 64) :: base64_encode r).
  rewrite IH. unfold pad_of. simpl length.
  replace (S (S (S (length r)))) with (length r + 1 * 3)%nat by lia.
  by rewrite Nat.Div0.mod_add.
Qed.

Lemma sextets_bound (bs : list N) : bytes bs -> Forall (fun v => v < 64) (sextets_of bs).
Proof.
  unfold bytes.
  induction bs as [|a|a b|a b c r IH] using list_ind3; intros H; simpl.
  - constructor.
  - apply Forall_cons in H as [Ha _]. repeat constructor; lia.
  - apply Forall_cons in H as [Ha H]. apply Forall_cons in H as [Hb _].
    repeat constructor; lia.
  - apply Forall_cons in H as [Ha H]. apply Forall_cons in H as [Hb H].
    apply Forall_cons in H as [Hc H]. repeat (constructor; [lia|]). auto.
Qed.

Lemma sextets_to_bytes_of (bs : list N) : bytes bs -> sextets_to_bytes (sextets_of bs) = bs.
Proof.
  unfold bytes.
  induction bs as [|a|a b|a b c r IH] using list_ind3; intros H.
  - done.
  - apply Forall_cons in H as [Ha _]. simpl. f_equal. lia.
  - apply Forall_cons in H as [Ha H]. apply Forall_cons in H as [Hb _].
    simpl. f_equal; [lia|]. f_equal. lia.
  - apply Forall_cons in H as [Ha H]. apply Forall_cons in H as [Hb H].
    apply Forall_cons in H as [Hc H].
    change (sextets_of (a :: b :: c :: r)) with
      (a / 4 :: (a mod 4) * 16 + b / 16 :: (b mod 16) * 4 + c / 64 :: c mod 64
        :: sextets_of r).
    change (sextets_to_bytes (?x :: ?y :: ?z :: ?w :: ?t)) with
      ((x * 4 + y / 16) :: ((y mod 16) * 16 + z / 4) :: ((z mod 4) * 64 + w)
        :: sextets_to_bytes t).
    rewrite IH by done. f_equal; [lia|]. f_equal; [lia|]. f_equal. lia.
Qed.

(** *** finite checks *)

Lemma range_forallb (P : N -> bool) (n : nat) :
  forallb P (range n) = true -> forall v, v < N.of_nat n -> P v = true.
Proof.
  intros H v Hv. rewrite forallb_forall in H. apply H.
  unfold range. apply in_map_iff. exists (N.to_nat v). split; [lia|].
  apply in_seq. lia.
Qed.

Lemma b64char_facts (v : N) :
  v < 64 ->
  unbase64 true (b64char v) = Some v
  /\ unbase64 false (b64char v) = Some v
  /\ std_char (url_char (b64char v)) = b64char v
  /\ b64char v <> 61.
Proof.
  intros Hv.
  pose proof (range_forallb
    (fun v => match unbase64 true (b64char v), unbase64 false (b64char v) with
              | Some a, Some b =>
                (a =? v) && (b =? v)
                && (std_char (url_char (b64char v)) =? b64char v)
                && negb (b64char v =? 61)
              | _, _ => false
              end) 64 eq_refl v Hv) as H.
  simpl in H.
  destruct (unbase64 true (b64char v)) as [a|]; [|done].
  destruct (unbase64 false (b64char v)) as [b|]; [|done].
  repeat (apply andb_true_iff in H as [H ?]).
  apply N.eqb_eq in H as ->. apply N.eqb_eq in H2 as ->. apply N.eqb_eq in H1.
  repeat split; try done. intros E. by rewrite E in H0.
Qed.

Lemma b64char_not_dot (v : N) : url_char (b64char v) <> 46 /\ b64char v <> 46.
Proof.
  unfold url_char, b64char.
  repeat (match goal with |- context [if ?b then _ else _] => destruct b eqn:? end);
    repeat match goal with H : _ = true |- _ => first [apply N.ltb_lt in H | apply N.eqb_eq in H] end;
    repeat match goal with H : _ = false |- _ => first [apply N.ltb_ge in H | apply N.eqb_neq in H] end;
    split; lia.
Qed.

Lemma replace_all_app (x y : N) (a b : list N) :
  replace_all x y (a ++ b) = replace_all x y a ++ replace_all x y b.
Proof. apply map_app. Qed.

Lemma remove_all_app (x : N) (a b : list N) :
  remove_all x (a ++ b) = remove_all x a ++ remove_all x b.
Proof. unfold remove_all. apply List.filter_app. Qed.

Lemma replace_all_repeat (x y c : N) (k : nat) :
  c <> x -> replace_all x y (repeat c k) = repeat c k.
Proof.
  intros Hc. induction k as [|k IH]; [done|]. simpl.
  destruct (N.eqb_spec c x); [done|]. by f_equal.
Qed.

Lemma remove_all_repeat (x : N) (k : nat) : remove_all x (repeat x k) = [].
Proof.
  induction k as [|k IH]; [done|]. unfold remove_all in *.
  cbn [repeat List.filter]. by rewrite N.eqb_refl.
Qed.

Lemma url_safe_cons (c : N) (s : list N) :
  c <> 61 ->
  remove_all 61 (replace_all 47 95 (replace_all 43 45 (c :: s)))
  = url_char c :: remove_all 61 (replace_all 47 95 (replace_all 43 45 s)).
Proof.
  intros Hc. unfold remove_all, replace_all, url_char. cbn [map List.filter].
  destruct (N.eqb_spec c 43) as [->|H1]; [done|].
  destruct (N.eqb_spec c 47) as [->|H2]; [done|].
  by destruct (N.eqb_spec c 61).
Qed.

Lemma url_safe_sextets (vs : list N) (k : nat) :
  Forall (fun v => v < 64) vs ->
  remove_all 61 (replace_all 47 95 (replace_all 43 45
    (map b64char vs ++ repeat 61 k)))
  = map (fun v => url_char (b64char v)) vs.
Proof.
  induction 1 as [|v vs Hv _ IH].
  - simpl. rewrite !replace_all_repeat by done. apply remove_all_repeat.
  - destruct (b64char_facts v Hv) as (_ & _ & _ & Hpad).
    cbn [map app]. rewrite url_safe_cons by done. by rewrite IH.
Qed.

Lemma std_cons (c : N) (s : list N) :
  replace_all 95 47 (replace_all 45 43 (c :: s))
  = std_char c :: replace_all 95 47 (replace_all 45 43 s).
Proof. done. Qed.

Lemma std_of_url (vs : list N) :
  Forall (fun v => v < 64) vs ->
  replace_all 95 47 (replace_all 45 43 (map (fun v => url_char (b64char v)) vs))
  = map b64char vs.
Proof.
  induction 1 as [|v vs Hv _ IH]; [done|].
  cbn [map]. rewrite std_cons, IH. f_equal.
  by destruct (b64char_facts v Hv) as (_ & _ & -> & _).
Qed.

Lemma node_sextets_chars (vs : list N) (k : nat) :
  Forall (fun v => v < 64) vs ->
  node_sextets (map b64char vs ++ repeat 61 k) = vs.
Proof.
  induction 1 as [|v vs Hv _ IH]; simpl.
  - by destruct k.
  - destruct (b64char_facts v Hv) as (-> & _ & _ & Hpad).
    destruct (N.eqb_spec (b64char v) 61); [done|]. by rewrite IH.
Qed.

Lemma no_dot_url (vs : list N) : no_dot (map (fun v => url_char (b64char v)) vs).
Proof.
  induction vs as [|v vs IH]; constructor; [|done]. apply b64char_not_dot.
Qed.

(** Settle the comparisons of the goal that linear arithmetic decides. *)
Ltac btest :=
  repeat match goal with
  | |- context [?a <? ?b] =>
    first [ replace (a <? b) with true by (symmetry; apply N.ltb_lt; lia)
          | replace (a <? b) with false by (symmetry; apply N.ltb_ge; lia) ]
  | |- context [?a <=? ?b] =>
    first [ replace (a <=? b) with true by (symmetry; apply N.leb_le; lia)
          | replace (a <=? b) with false by (symmetry; apply N.leb_gt; lia) ]
  | |- context [?a =? ?b] =>
    first [ replace (a =? b) with true by (symmetry; apply N.eqb_eq; lia)
          | replace (a =? b) with false by (symmetry; apply N.eqb_neq; lia) ]
  end.

Lemma decode_app (a b : list N) : forall st,
  utf8_decode_from st (a ++ b)
  = fst (decode_run st a) ++ utf8_decode_from (snd (decode_run st a)) b.
Proof.
  induction a as [|x a IH]; intros st; [done|]. simpl.
  destruct (d_step st x) as [o st']. rewrite IH.
  destruct (decode_run st' a) as [o' st'']. simpl. by rewrite app_assoc.
Qed.

Lemma decode_bytes2 (q1 q0 : N) :
  2 <= q1 < 32 -> q0 < 64 ->
  decode_run d_init [192 + q1; 128 + q0] = ([q1 * 64 + q0], d_init).
Proof.
  intros H1 H0. unfold decode_run, d_step, d_start, d_init. simpl d_need.
  btest. simpl. btest. simpl. unfold units_of_cp.
  replace ((192 + q1) mod 32) with q1 by lia.
  replace ((128 + q0) mod 64) with q0 by lia. by btest.
Qed.

Lemma decode_bytes3 (q2 q1 q0 : N) :
  q2 < 16 -> q1 < 64 -> q0 < 64 ->
  (q2 = 0 -> 32 <= q1) -> (q2 = 13 -> q1 < 32) ->
  decode_run d_init [224 + q2; 128 + q1; 128 + q0]
  = ([(q2 * 64 + q1) * 64 + q0], d_init).
Proof.
  intros H2 H1 H0 Hlo Hhi. unfold decode_run, d_step, d_start, d_init. simpl d_need.
  btest. simpl.
  replace ((224 + q2) mod 16) with q2 by lia.
  replace ((128 + q1) mod 64) with q1 by lia.
  replace ((128 + q0) mod 64) with q0 by lia.
  destruct (N.eqb_spec (224 + q2) 224) as [E|E];
    destruct (N.eqb_spec (224 + q2) 237) as [E'|E']; try lia;
    btest; simpl; btest; simpl; unfold units_of_cp; by btest.
Qed.

Lemma decode_bytes4 (q3 q2 q1 q0 : N) :
  q3 < 5 -> q2 < 64 -> q1 < 64 -> q0 < 64 ->
  (q3 = 0 -> 16 <= q2) -> (q3 = 4 -> q2 < 16) ->
  decode_run d_init [240 + q3; 128 + q2; 128 + q1; 128 + q0]
  = (units_of_cp (((q3 * 64 + q2) * 64 + q1) * 64 + q0), d_init).
Proof.
  intros H3 H2 H1 H0 Hlo Hhi. unfold decode_run, d_step, d_start, d_init. simpl d_need.
  btest. simpl.
  replace ((240 + q3) mod 8) with q3 by lia.
  replace ((128 + q2) mod 64) with q2 by lia.
  replace ((128 + q1) mod 64) with q1 by lia.
  replace ((128 + q0) mod 64) with q0 by lia.
  destruct (N.eqb_spec (240 + q3) 240) as [E|E];
    destruct (N.eqb_spec (240 + q3) 244) as [E'|E']; try lia;
    btest; simpl; btest; simpl; btest; simpl; by rewrite app_nil_r.
Qed.

Lemma decode_enc2 (c : N) :
  0x80 <= c < 0x800 -> decode_run d_init (enc2 c) = ([c], d_init).
Proof.
  intros Hc. unfold enc2. rewrite decode_bytes2 by lia. do 2 f_equal. lia.
Qed.

Lemma decode_enc3 (c : N) :
  0x800 <= c < 0x10000 -> is_high c = false -> is_low c = false ->
  decode_run d_init (enc3 c) = ([c], d_init).
Proof.
  unfold is_high, is_low. intros Hc Hh Hl.
  assert (c < 0xD800 \/ 0xDFFF < c) as Hs.
  { destruct (N.leb_spec 0xD800 c), (N.leb_spec c 0xDBFF), (N.leb_spec 0xDC00 c),
      (N.leb_spec c 0xDFFF); simpl in *; try done; lia. }
  unfold enc3. rewrite decode_bytes3 by lia. do 2 f_equal. lia.
Qed.

Lemma decode_enc4 (hi lo : N) :
  is_high hi = true -> is_low lo = true ->
  decode_run d_init (enc4 (pair_cp hi lo)) = ([hi; lo], d_init).
Proof.
  unfold is_high, is_low. intros Hh Hl.
  apply andb_true_iff in Hh as [Hh1 Hh2]. apply andb_true_iff in Hl as [Hl1 Hl2].
  apply N.leb_le in Hh1, Hh2, Hl1, Hl2.
  assert (0x10000 <= pair_cp hi lo < 0x110000) as Hcp by (unfold pair_cp; lia).
  unfold enc4. rewrite decode_bytes4 by lia.
  replace (((pair_cp hi lo / 262144 * 64 + (pair_cp hi lo / 4096) mod 64) * 64
            + (pair_cp hi lo / 64) mod 64) * 64 + pair_cp hi lo mod 64)
    with (pair_cp hi lo) by lia.
  unfold units_of_cp. btest. unfold pair_cp. do 2 f_equal; [|f_equal]; lia.
Qed.

Lemma usv_app (a b : list N) : usv a -> usv b -> usv (a ++ b).
Proof.
  induction 1; intros Hb; simpl; [done| |].
  - apply usv_bmp; auto.
  - apply usv_pair; auto.
Qed.

Lemma ascii_usv (s : list N) : ascii s -> usv s.
Proof.
  induction 1 as [|c s Hc _ IH]; constructor; try done; try lia;
    unfold is_high, is_low; btest; done.
Qed.

Lemma utf8_encode_bmp (c : N) (s : list N) :
  c < 65536 -> is_high c = false -> is_low c = false ->
  utf8_encode (c :: s)
  = (if c <? 0x80 then [c] else if c <? 0x800 then enc2 c else enc3 c)
    ++ utf8_encode s.
Proof.
  intros Hc Hh Hl. cbn [utf8_encode]. rewrite Hh, Hl.
  by destruct (c <? 128), (c <? 2048).
Qed.

Lemma utf8_encode_pair (c d : N) (s : list N) :
  is_high c = true -> is_low d = true ->
  utf8_encode (c :: d :: s) = enc4 (pair_cp c d) ++ utf8_encode s.
Proof.
  intros Hh Hl. cbn [utf8_encode]. rewrite Hh, Hl.
  unfold is_high in Hh. apply andb_true_iff in Hh as [Hh _]. apply N.leb_le in Hh.
  by btest.
Qed.

Lemma utf8_roundtrip (s : list N) : usv s -> utf8_decode (utf8_encode s) = s.
Proof.
  unfold utf8_decode. induction 1 as [|c s Hc Hh Hl _ IH|c d s Hh Hl _ IH].
  - done.
  - rewrite utf8_encode_bmp, decode_app by done.
    destruct (N.ltb_spec c 0x80); [|destruct (N.ltb_spec c 0x800)].
    + unfold decode_run, d_step, d_start. simpl d_need. btest. simpl. by rewrite IH.
    + rewrite decode_enc2 by lia. simpl. by rewrite IH.
    + rewrite decode_enc3 by (done || lia). simpl. by rewrite IH.
  - rewrite utf8_encode_pair, decode_app, decode_enc4 by done. simpl. by rewrite IH.
Qed.

Lemma utf8_encode_bytes (s : list N) : wf16 s -> bytes (utf8_encode s).
Proof.
  unfold wf16, bytes.
  assert (forall n s, (length s <= n)%nat -> Forall (fun c => c < 65536) s ->
                      Forall (fun b => b < 256) (utf8_encode s)) as H.
  { induction n as [|n IH]; intros [|c r] Hlen Hs; try (constructor; fail);
      simpl in Hlen; [lia|].
    apply Forall_cons in Hs as [Hc Hr]. cbn [utf8_encode].
    assert (Forall (fun b => b < 256) replacement) as Hrep
      by (repeat constructor).
    destruct (N.ltb_spec c 0x80); [constructor; [lia|apply IH; [lia|done]]|].
    destruct (N.ltb_spec c 0x800).
    { unfold enc2. repeat (constructor; [lia|]). apply IH; [lia|done]. }
    destruct (is_high c) eqn:Hh.
    { destruct r as [|d r'].
      - done.
      - destruct (is_low d) eqn:Hl.
        + unfold is_high, is_low in *.
          apply andb_true_iff in Hh as [Hh1 Hh2]. apply andb_true_iff in Hl as [Hl1 Hl2].
          apply N.leb_le in Hh1, Hh2, Hl1, Hl2.
          apply Forall_cons in Hr as [Hd Hr'].
          unfold enc4, pair_cp. repeat (constructor; [lia|]).
          apply IH; [simpl in Hlen; lia|done].
        + apply Forall_app. split; [done|]. apply IH; [lia|done]. }
    destruct (is_low c).
    { apply Forall_app. split; [done|]. apply IH; [lia|done]. }
    unfold enc3. repeat (constructor; [lia|]). apply IH; [lia|done]. }
  intros Hs. by apply (H (length s)).
Qed.

(** *** decimal digits *)

Lemma digits_aux_acc (fuel : nat) : forall n acc,
  digits_aux fuel n acc = digits_aux fuel n [] ++ acc.
Proof.
  induction fuel as [|f IH]; intros n acc; simpl; [done|].
  destruct (n <? 10); [done|].
  rewrite IH, (IH _ [_]). by rewrite <- app_assoc.
Qed.

Lemma digits_aux_S (f : nat) (n : N) (acc : list N) :
  digits_aux (S f) n acc
  = if n <? 10 then (48 + n) :: acc
    else digits_aux f (n / 10) ((48 + n mod 10) :: acc).
Proof. done. Qed.

Lemma dval_snoc (ds : list N) (x : N) : dval (ds ++ [x]) = dval ds * 10 + (x - 48).
Proof. unfold dval, dval_from. by rewrite fold_left_app. Qed.

Lemma digits_aux_spec (f : nat) : forall n,
  n < 10 ^ N.of_nat (S f) ->
  digit_chars (digits_aux (S f) n [])
  /\ dval (digits_aux (S f) n []) = n
  /\ exists d t, digits_aux (S f) n [] = d :: t
       /\ (0 < n -> d <> 48) /\ (n = 0 -> t = []).
Proof.
  induction f as [|f IH]; intros n Hn.
  - change (10 ^ N.of_nat 1) with 10 in Hn. simpl.
    destruct (N.ltb_spec n 10); [|lia].
    split; [|split].
    + repeat constructor. unfold is_digit. by btest.
    + unfold dval, dval_from. simpl. lia.
    + exists (48 + n), []. split; [done|]. split; [lia|done].
  - rewrite (digits_aux_S (S f)). destruct (N.ltb_spec n 10).
    + split; [|split].
      * repeat constructor. unfold is_digit. by btest.
      * unfold dval, dval_from. simpl. lia.
      * exists (48 + n), []. split; [done|]. split; [lia|done].
    + rewrite digits_aux_acc.
      assert (n / 10 < 10 ^ N.of_nat (S f)) as Hq.
      { replace (N.of_nat (S (S f))) with (N.succ (N.of_nat (S f))) in Hn by lia.
        rewrite N.pow_succ_r' in Hn. lia. }
      destruct (IH _ Hq) as (Hd & Hv & d & t & E & Hnz & _).
      split; [|split].
      * apply Forall_app. split; [done|]. repeat constructor. unfold is_digit. by btest.
      * rewrite dval_snoc, Hv. lia.
      * exists d, (t ++ [48 + n mod 10]). rewrite E. split; [done|].
        split; [|lia]. intros _. apply Hnz. lia.
Qed.

Lemma digits_spec (n : N) :
  digit_chars (digits n) /\ dval (digits n) = n
  /\ exists d t, digits n = d :: t /\ (0 < n -> d <> 48) /\ (n = 0 -> t = []).
Proof.
  unfold digits. apply digits_aux_spec.
  destruct (N.eq_dec n 0) as [->|Hn]; [done|].
  destruct (N.log2_spec n) as [_ Hlt]; [lia|].
  eapply N.lt_le_trans; [exact Hlt|].
  replace (N.of_nat (S (N.to_nat (N.log2 n)))) with (N.succ (N.log2 n)) by lia.
  apply N.pow_le_mono_l. lia.
Qed.

Lemma span_digits_app (ds rest : list N) :
  digit_chars ds -> ends_number rest -> span_digits (ds ++ rest) = (ds, rest).
Proof.
  intros Hd Hr. induction Hd as [|c ds Hc _ IH]; cbn [app span_digits].
  - destruct rest as [|c r]; [done|]. destruct Hr as (Hc & _).
    cbn [span_digits]. by rewrite Hc.
  - by rewrite Hc, IH.
Qed.

Lemma parse_number_int (z : Z) (rest : list N) :
  (Z.abs z < 10 ^ 21)%Z -> ends_number rest ->
  parse_number (int_to_string z ++ rest) = Some (JInt z, rest).
Proof.
  intros Hz Hr. unfold int_to_string.
  destruct (Z.ltb_spec (Z.abs z) (10 ^ 21)) as [_|?]; [|lia].
  destruct (digits_spec (Z.abs_N z)) as (Hd & Hv & d & t & E & Hnz & Hz0).
  assert (is_digit d = true) as Hdd by (rewrite E in Hd; by apply Forall_cons in Hd as [? _]).
  assert (parse_fraction rest = Some ([], rest)) as Hfrac.
  { destruct rest as [|c r]; [done|]. destruct Hr as (_ & ? & _).
    unfold parse_fraction. destruct c as [|p]; [done|].
    repeat (destruct p as [p|p|]; try done). }
  assert (parse_exponent rest = Some (0%Z, rest)) as Hexp.
  { destruct rest as [|c r]; [done|]. destruct Hr as (_ & _ & ? & ?).
    unfold parse_exponent. by btest. }
  assert (forall neg, parse_number ((if neg : bool then [45] else []) ++ digits (Z.abs_N z) ++ rest)
            = Some (mk_number neg (digits (Z.abs_N z)) 0, rest)) as Hp.
  { intros neg. unfold parse_number.
    assert (d <> 45) as Hd45 by (unfold is_digit in Hdd; intros ->; done).
    replace (match (if neg then [45] else []) ++ digits (Z.abs_N z) ++ rest with
             | 45 :: r => (true, r)
             | _ => (false, (if neg then [45] else []) ++ digits (Z.abs_N z) ++ rest)
             end) with (neg, digits (Z.abs_N z) ++ rest).
    2:{ destruct neg; [done|]. rewrite E. simpl.
        destruct d as [|p]; [done|]. repeat (destruct p as [p|p|]; try done). }
    rewrite E at 1. cbn [app]. rewrite Hdd.
    destruct (N.eqb_spec d 48) as [->|Hne].
    - destruct (N.eq_dec (Z.abs_N z) 0) as [Hzero|Hpos]; [|exfalso; apply Hnz; [lia|done]].
      rewrite (Hz0 Hzero) in *. cbn [app]. rewrite Hfrac, Hexp. by rewrite E.
    - rewrite span_digits_app by done. rewrite Hfrac, Hexp. by rewrite ?app_nil_r. }
  unfold sign_prefix. destruct (Z.ltb_spec z 0).
  - rewrite <- app_assoc. rewrite (Hp true). unfold mk_number. simpl.
    rewrite Hv, N2Z.inj_abs_N. change (10 ^ 0)%Z with 1%Z. do 3 f_equal. lia.
  - specialize (Hp false). cbn [app] in *. rewrite Hp. unfold mk_number. simpl.
    rewrite Hv, N2Z.inj_abs_N. change (10 ^ 0)%Z with 1%Z. do 3 f_equal. lia.
Qed.

(** *** string literals *)

Lemma hexdigit_facts (v : N) :
  v < 16 -> hexval (hexdigit v) = Some v /\ hexdigit v < 128.
Proof.
  intros Hv.
  pose proof (range_forallb
    (fun v => match hexval (hexdigit v) with
              | Some a => (a =? v) && (hexdigit v <? 128)
              | None => false
              end) 16 eq_refl v Hv) as H.
  simpl in H. destruct (hexval (hexdigit v)) as [a|]; [|done].
  apply andb_true_iff in H as [H1 H2].
  apply N.eqb_eq in H1 as ->. apply N.ltb_lt in H2. done.
Qed.

Lemma parse_hex4_digits (c : N) (r : list N) :
  c < 65536 ->
  parse_hex4 (hexdigit (c / 4096) :: hexdigit ((c / 256) mod 16)
              :: hexdigit ((c / 16) mod 16) :: hexdigit (c mod 16) :: r)
  = Some (c, r).
Proof.
  intros Hc. unfold parse_hex4.
  destruct (hexdigit_facts (c / 4096)) as [-> _]; [lia|].
  destruct (hexdigit_facts ((c / 256) mod 16)) as [-> _]; [lia|].
  destruct (hexdigit_facts ((c / 16) mod 16)) as [-> _]; [lia|].
  destruct (hexdigit_facts (c mod 16)) as [-> _]; [lia|].
  do 2 f_equal. lia.
Qed.

Lemma parse_chars_raw (f : nat) (c : N) (r : list N) :
  32 <= c -> c <> 34 -> c <> 92 ->
  parse_chars (S f) (c :: r) = cons_char c (parse_chars f r).
Proof. intros. cbn [parse_chars]. btest. done. Qed.

Lemma parse_chars_short (f : nat) (c e : N) (r : list N) :
  unescape e = Some c -> e <> 117 ->
  parse_chars (S f) (92 :: e :: r) = cons_char c (parse_chars f r).
Proof. intros Hu He. cbn [parse_chars]. btest. by rewrite Hu. Qed.

Lemma parse_chars_uescape (f : nat) (c : N) (r : list N) :
  c < 65536 ->
  parse_chars (S f) (uescape c ++ r) = cons_char c (parse_chars f r).
Proof.
  intros Hc. unfold uescape. cbn [app parse_chars]. btest.
  by rewrite parse_hex4_digits.
Qed.

Lemma uescape_length (c : N) : length (uescape c) = 6%nat.
Proof. done. Qed.

(** The two kinds of escaped character in [parse_chars_quote]. *)
Ltac short_case Hrec Hfuel :=
  cbn [length] in Hfuel;
  match goal with
  | |- parse_chars ?fuel _ = _ => destruct fuel as [|f]; [lia|]
  end;
  cbn [app]; erewrite parse_chars_short by (reflexivity || done);
  apply Hrec; lia.

Ltac u_case Hrec Hfuel :=
  rewrite ?length_app, ?uescape_length in Hfuel;
  match goal with
  | |- parse_chars ?fuel _ = _ => destruct fuel as [|f]; [lia|]
  end;
  rewrite <- ?app_assoc; rewrite parse_chars_uescape by done;
  apply Hrec; lia.

Lemma parse_chars_quote (n : nat) : forall s,
  (length s <= n)%nat -> wf16 s ->
  forall rest fuel, (length (quote_chars s) < fuel)%nat ->
    parse_chars fuel (quote_chars s ++ 34 :: rest) = Some (s, rest).
Proof.
  unfold wf16.
  induction n as [|n IH]; intros [|c r] Hlen Hs rest fuel Hfuel;
    simpl in Hlen; try lia;
    try (destruct fuel; [simpl in Hfuel; lia|done]).
  apply Forall_cons in Hs as [Hc Hr].
  assert (forall c' f, (length (quote_chars r) < f)%nat ->
            cons_char c' (parse_chars f (quote_chars r ++ 34 :: rest))
            = Some (c' :: r, rest)) as Hrec.
  { intros c' f Hf. rewrite (IH r) by (done || lia). done. }
  cbn [quote_chars] in *.
  destruct (N.eqb_spec c 34) as [->|?]; [short_case Hrec Hfuel|].
  destruct (N.eqb_spec c 92) as [->|?]; [short_case Hrec Hfuel|].
  destruct (N.eqb_spec c 8) as [->|?]; [short_case Hrec Hfuel|].
  destruct (N.eqb_spec c 12) as [->|?]; [short_case Hrec Hfuel|].
  destruct (N.eqb_spec c 10) as [->|?]; [short_case Hrec Hfuel|].
  destruct (N.eqb_spec c 13) as [->|?]; [short_case Hrec Hfuel|].
  destruct (N.eqb_spec c 9) as [->|?]; [short_case Hrec Hfuel|].
  destruct (N.ltb_spec c 32); [u_case Hrec Hfuel|].
  destruct (is_high c) eqn:Hh.
  - destruct r as [|d r'].
    + destruct fuel as [|f]; [simpl in Hfuel; lia|].
      rewrite parse_chars_uescape by done. destruct f; [simpl in Hfuel; lia|done].
    + destruct (is_low d) eqn:Hl; [|u_case Hrec Hfuel].
      apply Forall_cons in Hr as [Hd Hr'].
      unfold is_low in Hl. apply andb_true_iff in Hl as [Hl _]. apply N.leb_le in Hl.
      cbn [length] in Hfuel. destruct fuel as [|[|f]]; [lia..|].
      cbn [app]. rewrite !parse_chars_raw by lia.
      rewrite (IH r') by (done || simpl in Hlen; lia). done.
  - destruct (is_low c) eqn:Hl; [u_case Hrec Hfuel|].
    cbn [length] in Hfuel. destruct fuel as [|f]; [lia|].
    cbn [app]. rewrite parse_chars_raw by lia. apply Hrec. lia.
Qed.

Lemma parse_string_quote (s rest : list N) :
  wf16 s -> parse_string (quote s ++ rest) = Some (s, rest).
Proof.
  intros Hs. unfold quote, parse_string. cbn [app]. rewrite <- app_assoc. cbn [app].
  apply (parse_chars_quote (length s)); [done..|]. rewrite length_app. simpl. lia.
Qed.

Lemma uescape_ascii (c : N) : c < 65536 -> ascii (uescape c).
Proof.
  intros Hc. unfold uescape, ascii.
  destruct (hexdigit_facts (c / 4096)) as [_ ?]; [lia|].
  destruct (hexdigit_facts ((c / 256) mod 16)) as [_ ?]; [lia|].
  destruct (hexdigit_facts ((c / 16) mod 16)) as [_ ?]; [lia|].
  destruct (hexdigit_facts (c mod 16)) as [_ ?]; [lia|].
  repeat (constructor; [done || lia|]). constructor.
Qed.

Lemma quote_chars_usv (n : nat) : forall s,
  (length s <= n)%nat -> wf16 s -> usv (quote_chars s).
Proof.
  unfold wf16.
  induction n as [|n IH]; intros [|c r] Hlen Hs; simpl in Hlen; try lia;
    try constructor.
  apply Forall_cons in Hs as [Hc Hr].
  assert (usv (quote_chars r)) as Hrec by (apply IH; [lia|done]).
  assert (forall e, e < 128 -> usv (92 :: e :: quote_chars r)) as Hshort.
  { intros e He. apply (usv_app [92; e]); [|done].
    apply ascii_usv. repeat constructor; lia. }
  assert (usv (uescape c ++ quote_chars r)) as Hu.
  { apply usv_app; [|done]. by apply ascii_usv, uescape_ascii. }
  cbn [quote_chars].
  repeat match goal with
  | |- usv (if ?c =? ?k then _ else _) =>
    destruct (N.eqb_spec c k) as [->|?]; [apply Hshort; lia|]
  end.
  destruct (N.ltb_spec c 32); [done|].
  destruct (is_high c) eqn:Hh.
  - destruct r as [|d r'].
    + by apply ascii_usv, uescape_ascii.
    + destruct (is_low d) eqn:Hl; [|done].
      apply usv_pair; [done..|]. apply IH; [simpl in Hlen; lia|].
      by apply Forall_cons in Hr as [_ ?].
  - destruct (is_low c) eqn:Hl; [done|]. by apply usv_bmp.
Qed.

Lemma quote_usv (s : list N) : wf16 s -> usv (quote s).
Proof.
  intros Hs. unfold quote. apply (usv_app [34]); [by apply ascii_usv; repeat constructor|].
  apply usv_app; [by apply (quote_chars_usv (length s))|].
  by apply ascii_usv; repeat constructor.
Qed.

(** *** objects of strings, booleans and integers *)

Lemma delimiter_ends (rest : list N) : delimiter rest -> ends_number rest.
Proof. intros [t [-> | ->]]; simpl; repeat split; done. Qed.

Lemma int_to_string_head (z : Z) :
  (Z.abs z < 10 ^ 21)%Z ->
  exists c t, int_to_string z = c :: t /\ (c = 45 \/ is_digit c = true)
              /\ ascii (int_to_string z).
Proof.
  intros Hz. unfold int_to_string, sign_prefix.
  destruct (Z.ltb_spec (Z.abs z) (10 ^ 21)); [|lia].
  destruct (digits_spec (Z.abs_N z)) as (Hd & _ & d & t & E & _).
  assert (ascii (digits (Z.abs_N z))) as Ha.
  { eapply Forall_impl; [exact Hd|]. intros c Hc. simpl in Hc. unfold is_digit in Hc.
    apply andb_true_iff in Hc as [_ Hc]. apply N.leb_le in Hc. lia. }
  destruct (z <? 0)%Z.
  - exists 45, (digits (Z.abs_N z)). split; [done|]. split; [by left|].
    constructor; [lia|done].
  - exists d, t. split; [done|]. split; [|done]. right.
    rewrite E in Hd. by apply Forall_cons in Hd as [? _].
Qed.

Lemma parse_value_S (f : nat) (c : N) (r : list N) :
  is_json_ws c = false -> c <> 123 -> c <> 91 ->
  parse_value (S f) (c :: r)
  = if c =? 34 then
      match parse_string (c :: r) with
      | Some (str, t) => Some (JStr str, t)
      | None => None
      end
    else if c =? 116 then expect (js "true") (JBool true) (c :: r)
    else if c =? 102 then expect (js "false") (JBool false) (c :: r)
    else if c =? 110 then expect (js "null") JNull (c :: r)
    else parse_number (c :: r).
Proof.
  intros Hws H1 H2. cbn [parse_value skip_ws]. rewrite Hws. by btest.
Qed.

Lemma parse_value_simple (v : json) (rest : list N) (f : nat) :
  simple v -> delimiter rest ->
  parse_value (S f) (stringify v ++ rest) = Some (v, rest).
Proof.
  intros Hv Hr. destruct Hv as [s Hs|b|z Hz].
  - pose proof (parse_string_quote s rest Hs) as Hp.
    cbn [stringify]. unfold quote in *. cbn [app] in *.
    rewrite parse_value_S by done. change (34 =? 34) with true. cbv iota.
    by rewrite Hp.
  - destruct b; cbn [stringify];
      [change (js "true" ++ rest) with (116 :: 114 :: 117 :: 101 :: rest)
      |change (js "false" ++ rest) with (102 :: 97 :: 108 :: 115 :: 101 :: rest)];
      rewrite parse_value_S by done; done.
  - destruct (int_to_string_head z Hz) as (c & t & E & Hc & _).
    pose proof (parse_number_int z rest Hz (delimiter_ends _ Hr)) as Hp.
    cbn [stringify]. rewrite E in *. cbn [app] in *.
    assert (48 <= c <= 57 \/ c = 45) as Hrange.
    { destruct Hc as [->|Hc]; [by right|left]. unfold is_digit in Hc.
      apply andb_true_iff in Hc as [H1 H2]. apply N.leb_le in H1, H2. lia. }
    rewrite parse_value_S; [|unfold is_json_ws; btest; done|lia|lia].
    by btest.
Qed.

Lemma parse_members_S (f : nat) (acc : list (list N * json)) (s : list N) :
  parse_members (S f) acc s
  = match parse_string (skip_ws s) with
    | Some (k, s1) =>
      match skip_ws s1 with
      | 58 :: s2 =>
        match parse_value f s2 with
        | Some (v, s3) =>
          let acc' := obj_set k v acc in
          match skip_ws s3 with
          | 44 :: s4 => parse_members f acc' s4
          | 125 :: s4 => Some (acc', s4)
          | _ => None
          end
        | None => None
        end
      | _ => None
      end
    | None => None
    end.
Proof. done. Qed.

Lemma join_cons2 (sep x y : list N) (l : list (list N)) :
  join sep (x :: y :: l) = x ++ sep ++ join sep (y :: l).
Proof. done. Qed.

Lemma parse_members_simple (ms : list (list N * json)) :
  forall acc fuel rest,
    ms <> [] -> Forall member_ok ms -> (length ms < fuel)%nat ->
    parse_members fuel acc (join [44] (map member_text ms) ++ 125 :: rest)
    = Some (fold_left (fun a kv => obj_set (fst kv) (snd kv) a) ms acc, rest).
Proof.
  induction ms as [|[k v] ms IH]; intros acc fuel rest Hne Hok Hfuel; [done|].
  apply Forall_cons in Hok as [[Hk Hv] Hok]. simpl in Hk, Hv.
  destruct fuel as [|[|f]]; [simpl in Hfuel; lia..|].
  rewrite parse_members_S.
  assert (forall R, delimiter R ->
    match parse_string (skip_ws (member_text (k, v) ++ R)) with
    | Some (k', s1) =>
      match skip_ws s1 with
      | 58 :: s2 =>
        match parse_value (S f) s2 with
        | Some (v', s3) =>
          let acc' := obj_set k' v' acc in
          match skip_ws s3 with
          | 44 :: s4 => parse_members (S f) acc' s4
          | 125 :: s4 => Some (acc', s4)
          | _ => None
          end
        | None => None
        end
      | _ => None
      end
    | None => None
    end
    = match R with
      | 44 :: s4 => parse_members (S f) (obj_set k v acc) s4
      | 125 :: s4 => Some (obj_set k v acc, s4)
      | _ => None
      end) as Hstep.
  { intros R HR. unfold member_text. cbn [fst snd].
    replace (skip_ws ((quote k ++ 58 :: stringify v) ++ R))
      with (quote k ++ 58 :: stringify v ++ R)
      by (rewrite <- app_assoc; done).
    rewrite parse_string_quote by done. cbn [skip_ws].
    change (is_json_ws 58) with false. cbv iota.
    rewrite parse_value_simple by done.
    destruct HR as [t [-> | ->]]; done. }
  destruct ms as [|m ms].
  - cbn [map join]. rewrite Hstep by (exists rest; by right). done.
  - cbn [map]. rewrite join_cons2, <- !app_assoc. cbn [app].
    rewrite Hstep by (eexists; by left).
    change (join [44] (member_text m :: map member_text ms))
      with (join [44] (map member_text (m :: ms))).
    rewrite IH; [done|done|done|]. simpl in *. lia.
Qed.

Lemma members_text (props : list (list N * option json)) :
  flat_map stringify_member props = map member_text (members props).
Proof.
  induction props as [|[k [v|]] props IH]; simpl; [done| |done].
  by rewrite IH.
Qed.

Lemma join_length (ms : list (list N * json)) :
  (length ms <= length (join [44%N] (map member_text ms)))%nat.
Proof.
  induction ms as [|m [|m' ms] IH]; [done| |].
  - simpl. unfold member_text, quote. simpl. lia.
  - cbn [map]. rewrite join_cons2. rewrite !length_app.
    cbn [map] in IH. unfold member_text at 1, quote. simpl in *. lia.
Qed.

Lemma parse_value_object (f : nat) (r : list N) :
  parse_value (S f) (123 :: r)
  = match skip_ws r with
    | 125 :: t => Some (JObj [], t)
    | _ =>
      match parse_members f [] r with
      | Some (ps, t) => Some (JObj ps, t)
      | None => None
      end
    end.
Proof. done. Qed.

Lemma JSON_parse_stringify_object (props : list (list N * option json)) :
  Forall member_ok (members props) ->
  JSON_parse (JSON_stringify_object props)
  = Some (JObj (fold_left (fun a kv => obj_set (fst kv) (snd kv) a) (members props) [])).
Proof.
  intros Hok. unfold JSON_parse, JSON_stringify_object. rewrite members_text.
  rewrite parse_value_object.
  destruct (members props) as [|m ms] eqn:E; [done|].
  assert (exists c t, join [44] (map member_text (m :: ms)) = 34 :: c :: t)
    as (c & t & Ej).
  { destruct ms; simpl; unfold member_text, quote; simpl.
    - destruct (quote_chars (fst m)); simpl; eauto.
    - destruct (quote_chars (fst m)); simpl; eauto. }
  pose proof (join_length (m :: ms)) as Hlen.
  pose proof (fun fuel => parse_members_simple (m :: ms) [] fuel []
                ltac:(done) Hok) as Hp.
  rewrite Ej in *. cbn [app skip_ws] in *.
  change (is_json_ws 34) with false. cbv iota.
  rewrite Hp; [done|]. simpl in *. rewrite length_app. simpl. lia.
Qed.

Lemma usv_wf16 (s : list N) : usv s -> wf16 s.
Proof.
  unfold wf16. induction 1 as [|c s Hc _ _ _ IH|c d s Hh Hl _ IH]; constructor; try done.
  - unfold is_high in Hh. apply andb_true_iff in Hh as [_ H]. apply N.leb_le in H. lia.
  - constructor; [|done].
    unfold is_low in Hl. apply andb_true_iff in Hl as [_ H]. apply N.leb_le in H. lia.
Qed.

Lemma stringify_simple_usv (v : json) : simple v -> usv (stringify v).
Proof.
  intros [s Hs|b|z Hz]; cbn [stringify].
  - by apply quote_usv.
  - destruct b; apply ascii_usv; repeat constructor.
  - destruct (int_to_string_head z Hz) as (_ & _ & _ & _ & Ha). by apply ascii_usv.
Qed.

Lemma stringify_object_usv (props : list (list N * option json)) :
  Forall member_ok (members props) -> usv (JSON_stringify_object props).
Proof.
  intros Hok. unfold JSON_stringify_object. rewrite members_text.
  apply (usv_app [123]); [by apply ascii_usv; repeat constructor|].
  apply usv_app; [|by apply ascii_usv; repeat constructor].
  induction Hok as [|[k v] ms [Hk Hv] _ IH]; [constructor|].
  assert (usv (member_text (k, v))) as Hm.
  { unfold member_text. apply usv_app; [by apply quote_usv|].
    apply (usv_app [58]); [by apply ascii_usv; repeat constructor|].
    by apply stringify_simple_usv. }
  destruct ms as [|m ms]; [done|].
  cbn [map]. rewrite join_cons2. apply usv_app; [done|].
  apply (usv_app [44]); [by apply ascii_usv; repeat constructor|]. done.
Qed.

(** *** SHA-256 output *)

Lemma be_bytes_spec (n : nat) : forall x, length (be_bytes n x) = n /\ bytes (be_bytes n x).
Proof.
  unfold bytes. induction n as [|n IH]; intros x; simpl; [by split|].
  destruct (IH (x / 256)) as [Hl Hb]. split.
  - rewrite length_app, Hl. simpl. lia.
  - apply Forall_app. split; [done|]. repeat constructor. lia.
Qed.

Lemma sha_round_eight (st : list N) (kw : N * N) : eight st -> eight (sha_round st kw).
Proof.
  unfold eight. intros H.
  do 8 (destruct st as [|? st]; [done|]). by destruct st.
Qed.

Lemma compress_eight (h block : list N) : eight h -> eight (compress h block).
Proof.
  intros H. unfold compress.
  assert (eight (fold_left sha_round (zip_with pair round_constants (schedule block)) h)) as H'.
  { generalize (zip_with pair round_constants (schedule block)). intros l. revert h H.
    induction l as [|kw l IH]; intros h H; [done|]. simpl. by apply IH, sha_round_eight. }
  revert H'. generalize (fold_left sha_round (zip_with pair round_constants (schedule block)) h).
  intros g H'. unfold eight in *.
  do 8 (destruct h as [|? h]; [done|]). destruct h; [|done].
  do 8 (destruct g as [|? g]; [done|]). by destruct g.
Qed.

Lemma sha256_spec (msg : list N) : length (sha256 msg) = 32%nat /\ bytes (sha256 msg).
Proof.
  unfold sha256.
  assert (eight (fold_left compress (chunks 64 (sha_pad msg)) initial_hash)) as H.
  { generalize (chunks 64 (sha_pad msg)). intros l.
    assert (eight initial_hash) as H0 by done. revert H0. generalize initial_hash.
    induction l as [|b l IH]; intros h H; [done|]. simpl. by apply IH, compress_eight. }
  revert H. generalize (fold_left compress (chunks 64 (sha_pad msg)) initial_hash).
  intros h H. unfold eight in H.
  assert (forall l : list N, length (flat_map (be_bytes 4) l) = (4 * length l)%nat
                             /\ bytes (flat_map (be_bytes 4) l)) as Hflat.
  { induction l as [|x l [IH1 IH2]]; [by split; [|constructor]|].
    cbn [flat_map]. destruct (be_bytes_spec 4 x) as [Hl Hb]. split.
    - rewrite length_app, Hl, IH1. simpl. lia.
    - by apply Forall_app. }
  destruct (Hflat h) as [Hl Hb]. split; [|done]. rewrite Hl, H. done.
Qed.

Lemma hmac_spec (key msg : list N) :
  length (hmac_sha256 key msg) = 32%nat /\ bytes (hmac_sha256 key msg).
Proof. apply sha256_spec. Qed.

End JSFacts.

Module JwtFacts.
Import JS JSFacts Jwt.
Open Scope N_scope.

Lemma url_safe_encode (bs : list N) :
  bytes bs ->
  url_safe (base64_encode bs) = map (fun v => url_char (b64char v)) (sextets_of bs).
Proof.
  intros Hb. unfold url_safe. rewrite base64_encode_sextets. unfold pad_of.
  by apply url_safe_sextets, sextets_bound.
Qed.

Lemma url_safe_decode (bs : list N) :
  bytes bs -> buffer_from_base64 (pad4 (std (url_safe (base64_encode bs)))) = bs.
Proof.
  intros Hb. rewrite url_safe_encode by done. unfold std.
  rewrite std_of_url by by apply sextets_bound.
  unfold pad4, buffer_from_base64.
  rewrite node_sextets_chars by by apply sextets_bound.
  by apply sextets_to_bytes_of.
Qed.


Lemma url_safe_no_dot (bs : list N) : bytes bs -> no_dot (url_safe (base64_encode bs)).
Proof. intros Hb. rewrite url_safe_encode by done. apply no_dot_url. Qed.

Lemma base64url_roundtrip (text : list N) :
  usv text -> base64urlDecode (base64urlEncode text) = text.
Proof.
  intros Hu. unfold base64urlDecode, base64urlEncode.
  fold (std (url_safe (base64_encode (utf8_encode text)))).
  rewrite url_safe_decode by by apply utf8_encode_bytes, usv_wf16.
  by apply utf8_roundtrip.
Qed.

Lemma base64urlEncode_no_dot (text : list N) : wf16 text -> no_dot (base64urlEncode text).
Proof. intros H. by apply url_safe_no_dot, utf8_encode_bytes. Qed.

Lemma createSignature_no_dot (data secret : list N) : no_dot (createSignature data secret).
Proof. apply url_safe_no_dot, hmac_spec. Qed.

Lemma wf16_js (s : string) :
  forallb (fun c => c <? 65536) (js s) = true -> wf16 (js s).
Proof.
  intros H. unfold wf16. rewrite forallb_forall in H. apply List.Forall_forall.
  intros c Hc. by apply N.ltb_lt, H.
Qed.

Lemma safe_simple (z : Z) : safe_integer z -> simple (JInt z).
Proof. unfold safe_integer. intros H. constructor. lia. Qed.

Lemma fullPayload_ok (c : TokenPayload) (now exp : Z) :
  wf_claims c -> safe_integer now -> safe_integer exp ->
  Forall member_ok (members (fullPayload (payload_object c) now exp))
  /\ JObj (fold_left (fun a kv => obj_set (fst kv) (snd kv) a)
             (members (fullPayload (payload_object c) now exp)) [])
     = decoded c now exp.
Proof.
  intros (Hu & He & Hr) Hn Hx.
  assert (forall k, forallb (fun c => c <? 65536) (js k) = true ->
            forall v, simple v -> member_ok (js k, v)) as Hm.
  { intros k Hk v Hv. split; [by apply wf16_js|done]. }
  unfold decoded, payload_object. destruct (isVerified c) as [b|]; (split; [|done]);
    repeat (apply Forall_cons; split; [apply Hm; [done|]|]);
    try (by constructor); by apply safe_simple.
Qed.

Lemma header_text :
  usv (JSON_stringify_object header).
Proof.
  apply stringify_object_usv. unfold header, members. cbn [flat_map snd fst app].
  repeat (apply Forall_cons; split; [split; [|constructor]; by apply wf16_js|]).
  constructor.
Qed.

Lemma verify_signed (e : env) (clock0 clock1 : Z) (c : TokenPayload) (expiresIn : list N) :
  let now := seconds clock0 in
  let exp := (now + parseDuration expiresIn / 1000)%Z in
  wf_claims c -> safe_integer now -> safe_integer exp ->
  verifyToken e clock1 (signToken e clock0 (payload_object c) expiresIn)
  = if (exp <? seconds clock1)%Z then None else Some (decoded c now exp).
Proof.
  intros now exp Hc Hn Hx.
  destruct (fullPayload_ok c now exp Hc Hn Hx) as [Hok Hobj].
  unfold verifyToken, verifyToken_try, signToken. fold now. fold exp.
  set (text := JSON_stringify_object (fullPayload (payload_object c) now exp)).
  assert (usv text) as Htext by by apply stringify_object_usv.
  rewrite split_three;
    [|apply base64urlEncode_no_dot, usv_wf16, header_text
     |by apply base64urlEncode_no_dot, usv_wf16
     |apply createSignature_no_dot].
  rewrite streq_refl. cbn [negb].
  rewrite base64url_roundtrip by done. unfold text.
  rewrite JSON_parse_stringify_object by done. rewrite Hobj.
  assert (get_prop (decoded c now exp) (js "exp") = Normal (Some (JInt exp))) as ->.
  { unfold decoded, payload_object. by destruct (isVerified c). }
  cbn. rewrite Z.mul_1_r. by destruct (exp <? seconds clock1)%Z.
Qed.

(** *** [atob] against [Buffer.from(_, 'base64')] *)







End JwtFacts.

(* ===================================================================== *)
(** * The token codec and its two verifiers *)
(* ===================================================================== *)

Module CodecClaims.
Import JS JSFacts Jwt JwtFacts Examples.
Open Scope Z_scope.


Lemma wf_claims_check (c : TokenPayload) :
  forallb (fun u => (u <? 65536)%N) (userId c ++ email c ++ role c) = true ->
  wf_claims c.
Proof.
  intros H. rewrite forallb_forall in H. unfold wf_claims, wf16.
  repeat split; apply List.Forall_forall; intros u Hu; apply N.ltb_lt, H;
    rewrite !in_app_iff; auto.
Qed.





(** C3, as amended. For claims [c] and a duration, the token signed at
    [clock0] verifies to the payload made of [c], the issue second and
    the expiry second at every clock reading whose second is not after the
    expiry second, and to null at every later one. *)
Theorem sign_verify_roundtrip (e : env) (clock0 clock1 : Z) (c : TokenPayload)
    (expiresIn : list N) :
  let now := seconds clock0 in
  let exp := now + parseDuration expiresIn / 1000 in
  let token := signToken e clock0 (payload_object c) expiresIn in
  wf_claims c -> safe_integer now -> safe_integer exp ->
  (seconds clock1 <= exp -> verifyToken e clock1 token = Some (decoded c now exp))
  /\ (exp < seconds clock1 -> verifyToken e clock1 token = None).
Proof.
  intros now exp token Hc Hn Hx. unfold token.
  rewrite (verify_signed e clock0 clock1 c expiresIn Hc Hn Hx). fold now. fold exp.
  destruct (Z.ltb_spec exp (seconds clock1)); split; intros; (done || lia).
Qed.

Lemma sign_verify_roundtrip_witness :
  let token := signToken shared_env 1000000 (payload_object alice) (js "15m") in
  (seconds 1899999 <= 1900 ->
     verifyToken shared_env 1899999 token = Some (decoded alice 1000 1900))
  /\ (1900 < seconds 1901000 -> verifyToken shared_env 1901000 token = None).
Proof.
  intros token.
  pose proof (sign_verify_roundtrip shared_env 1000000 1899999 alice (js "15m")
                (wf_claims_check alice eq_refl)) as H1.
  pose proof (sign_verify_roundtrip shared_env 1000000 1901000 alice (js "15m")
                (wf_claims_check alice eq_refl)) as H2.
  split.
  - apply H1; unfold safe_integer; vm_compute; congruence.
  - apply H2; unfold safe_integer; vm_compute; congruence.
Defined.

(** C3, counterexample. A token minted at second 1000 for 15 minutes
    expires at second 1900; at the clock reading 1 900 000 ms, the expiry
    instant itself, [verifyToken] still returns the payload. *)
Lemma accepted_at_expiry :
  let token := signToken shared_env 1000000 (payload_object alice) (js "15m") in
  seconds 1000000 + parseDuration (js "15m") / 1000 = 1900
  /\ seconds 1900000 = 1900
  /\ verifyToken shared_env 1900000 token = Some (decoded alice 1000 1900).
Proof. intros token. split; [|split]; vm_compute; reflexivity. Qed.

(** C4, as amended. [verifyToken] is total and turns every exception of
    its body into null; it returns null for every string that does not
    split into exactly three dot-separated parts, for every token whose
    third part differs from the signature recomputed over the first two,
    for every token whose second or third part is empty, and whenever the
    payload does not decode to JSON. *)
Theorem verifyToken_malformed (e : env) (clock_ms : Z) (token : list N) :
  (verifyToken_try e clock_ms token = Throw -> verifyToken e clock_ms token = None)
  /\ (length (split_on 46 token) <> 3%nat -> verifyToken e clock_ms token = None)
  /\ (forall h p sg, split_on 46 token = [h; p; sg] ->
        (sg <> createSignature (h ++ 46%N :: p) (JWT_SECRET e) ->
           verifyToken e clock_ms token = None)
        /\ (p = [] -> verifyToken e clock_ms token = None)
        /\ (sg = [] -> verifyToken e clock_ms token = None)
        /\ (JSON_parse (base64urlDecode p) = None ->
              verifyToken e clock_ms token = None)).
Proof.
  unfold verifyToken. split; [by intros ->|]. unfold verifyToken_try. split.
  - intros Hlen. by destruct (split_on 46 token) as [|h [|p [|sg [|? ?]]]].
  - intros h p sg ->.
    assert (sg <> createSignature (h ++ 46%N :: p) (JWT_SECRET e) ->
            try_catch
              (if negb (streq sg (createSignature (h ++ 46%N :: p) (JWT_SECRET e)))
               then Normal None
               else match JSON_parse (base64urlDecode p) with
                    | Some payload =>
                      exp ← get_prop payload (js "exp");
                      expired ← js_lt exp (seconds clock_ms);
                      if expired : bool then Normal None else Normal (Some payload)
                    | None => Throw
                    end) None = None) as Hsig.
    { intros Hne. by rewrite streq_neq. }
    split; [done|]. split; [|split].
    + intros ->. by destruct (negb _).
    + intros ->. apply Hsig. intros E.
      pose proof (proj1 (hmac_spec (utf8_encode (JWT_SECRET e))
                                   (utf8_encode (h ++ 46%N :: p)))) as Hl.
      unfold createSignature in E.
      rewrite url_safe_encode in E by apply hmac_spec.
      destruct (hmac_sha256 _ _) as [|a [|b [|c l]]]; try (simpl in Hl; lia).
      done.
    + intros ->. by destruct (negb _).
Qed.

Lemma verifyToken_malformed_witness :
  verifyToken shared_env 0 (js "not-a-token") = None
  /\ verifyToken shared_env 0 (js "a.b.c") = None
  /\ verifyToken shared_env 0 (js "a..c") = None.
Proof.
  split; [|split].
  - apply (verifyToken_malformed shared_env 0 (js "not-a-token")). vm_compute. lia.
  - eapply (verifyToken_malformed shared_env 0 (js "a.b.c")); [reflexivity|].
    vm_compute. congruence.
  - eapply (verifyToken_malformed shared_env 0 (js "a..c")); reflexivity.
Defined.

(** C4, counterexample. A string whose first part is empty, with a payload
    and the signature computed over the dot and the payload, splits into
    three parts of which one is empty, and [verifyToken] returns its
    payload. *)
Lemma empty_header_accepted :
  (exists p sg, split_on 46 headless_token = [[]; p; sg])
  /\ verifyToken shared_env 0 headless_token
     = Some (JObj [(js "exp", JInt 9999999999)]).
Proof. split; [do 2 eexists|]; vm_compute; reflexivity. Qed.



End CodecClaims.

(* ===================================================================== *)
(** * The route guard *)
(* ===================================================================== *)

Module GuardClaims.
Import JS JSFacts Jwt Edge Examples.
Open Scope Z_scope.

Lemma middleware_unfold (e : env) (clock_ms : Z) (req : request) :
  middleware e clock_ms req
  = if bypassed (pathname req) then Next
    else if is_protected (pathname req)
            && negb (verified (session e clock_ms (access_cookie req)))
    then Redirect (js "/login") [(js "redirect", pathname req)]
    else if is_auth_only (pathname req)
            && verified (session e clock_ms (access_cookie req))
    then Redirect (js "/dashboard") []
    else Next.
Proof.
  unfold middleware, bypassed, is_protected, is_auth_only, verified, session.
  destruct (_ || _ || includes_char 46 (pathname req)); [done|].
  destruct (access_cookie req) as [[|c t]|]; cbn [valid isVerified truthy];
    rewrite ?negb_andb, ?andb_assoc; done.
Qed.

Lemma protected_not_auth (pathname : list N) :
  is_protected pathname = true -> is_auth_only pathname = false.
Proof.
  unfold is_protected, is_auth_only, protectedRoutes, authRoutes.
  cbn [existsb]. rewrite !orb_false_r.
  change (js "/dashboard") with (47%N :: 100%N :: js "ashboard").
  change (js "/login") with (47%N :: 108%N :: js "ogin").
  change (js "/register") with (47%N :: 114%N :: js "egister").
  destruct pathname as [|a [|b p]]; cbn [starts_with streq]; [done| |].
  - by rewrite andb_false_r.
  - destruct (N.eqb_spec 47 a) as [<-|]; [|done].
    destruct (N.eqb_spec 100 b) as [<-|]; [|done]. done.
Qed.




End GuardClaims.

(* ===================================================================== *)
(** * The rate limiter *)
(* ===================================================================== *)

Module RateLimitClaims.
Import JS RateLimit.
Open Scope Z_scope.

Lemma check_fresh (key : list N) (config : RateLimitConfig) (now : Z)
    (s : gmap (list N) RateLimitEntry) :
  fresh_at key now s ->
  checkRateLimit key config now s
  = (Verdict true (maxRequests config - 1) (windowMs config),
     <[key := Entry 1 (now + windowMs config)]> s).
Proof.
  unfold fresh_at, checkRateLimit. destruct (s !! key) as [entry|]; [|done].
  intros H. apply Z.ltb_lt in H. by rewrite H.
Qed.

Lemma check_within (key : list N) (config : RateLimitConfig) (now : Z)
    (s : gmap (list N) RateLimitEntry) (entry : RateLimitEntry) :
  s !! key = Some entry -> now <= resetTime entry ->
  checkRateLimit key config now s
  = (verdict_after config (count entry) (resetTime entry - now),
     <[key := Entry (count entry + 1) (resetTime entry)]> s).
Proof.
  intros Hs Hle. unfold checkRateLimit, verdict_after. rewrite Hs.
  destruct (Z.ltb_spec (resetTime entry) now) as [?|_]; [lia|]. simpl.
  by destruct (count entry + 1 >? maxRequests config).
Qed.





End RateLimitClaims.

(* ===================================================================== *)
(** * The route handlers *)
(* ===================================================================== *)

Module RouteClaims.
Import JS JSFacts Jwt JwtFacts Store Routes Examples.
Open Scope Z_scope.

(** The general shape of a refresh: the new pair is signed for the three
    identity fields of the old payload, and for nothing else. *)
Lemma refresh_rotation (e : env) (t0 t1 t2 t3 : Z) (c : TokenPayload) :
  let now := seconds t0 in
  let exp := now + parseDuration (JWT_REFRESH_EXPIRES_IN e) / 1000 in
  wf_claims c -> safe_integer now -> safe_integer exp -> seconds t1 <= exp ->
  refresh_POST e t1 t2 t3 (Some (signRefreshToken e t0 (payload_object c)))
  = Response 200 (message_body true "Token refreshed successfully") []
      (setAuthCookies e
         (signAccessToken e t2 (payload_object (without_flag c)))
         (signRefreshToken e t3 (payload_object (without_flag c)))).
Proof.
  intros now exp Hc Hn Hx Hle. unfold refresh_POST.
  assert (present (Some (signRefreshToken e t0 (payload_object c))) = true) as ->.
  { unfold signRefreshToken, signToken, base64urlEncode at 1.
    rewrite url_safe_encode by (apply utf8_encode_bytes, usv_wf16, header_text).
    by vm_compute. }
  assert (verifyToken e t1 (signRefreshToken e t0 (payload_object c))
          = Some (decoded c now exp)) as Hv.
  { unfold signRefreshToken. rewrite (verify_signed e t0 t1 c _ Hc Hn Hx).
    fold now. fold exp. by destruct (Z.ltb_spec exp (seconds t1)); [lia|]. }
  cbn [negb default]. unfold id. rewrite Hv.
  unfold decoded, payload_object. by destruct (Jwt.isVerified c).
Qed.

(** C1, the code at the failing input. The refresh token of a login
    carries the verified-flag; the refresh answers 200 with a new pair
    whose payloads carry userId, email and role and no verified-flag; the
    route guard lets the login's access token into /dashboard and sends
    the refreshed one to /login. Without a refresh cookie the answer is
    401. *)
Theorem refresh_drops_verified_flag :
  verifyToken shared_env 2000000 login_refresh_token
  = Some (JObj (identity ++ [(js "isVerified", JBool true);
                             (js "iat", JInt 1000); (js "exp", JInt 605800)]))
  /\ status rotated = 200
  /\ (exists access refresh,
        cookies rotated = [Cookie ACCESS_TOKEN_COOKIE access 900;
                           Cookie REFRESH_TOKEN_COOKIE refresh 604800]
        /\ verifyToken shared_env 2000000 access
           = Some (JObj (identity ++ [(js "iat", JInt 2000); (js "exp", JInt 2900)]))
        /\ verifyToken shared_env 2000000 refresh
           = Some (JObj (identity ++ [(js "iat", JInt 2000); (js "exp", JInt 606800)]))
        /\ Edge.middleware shared_env 1000000
             (Edge.Request (js "/dashboard") (Some login_access_token)) = Edge.Next
        /\ Edge.middleware shared_env 2000000
             (Edge.Request (js "/dashboard") (Some access))
           = Edge.Redirect (js "/login") [(js "redirect", js "/dashboard")])
  /\ (forall e t1 t2 t3, status (refresh_POST e t1 t2 t3 None) = 401).
Proof.
  split; [vm_compute; reflexivity|]. split; [vm_compute; reflexivity|].
  split; [|done].
  do 2 eexists. split; [vm_compute; reflexivity|].
  split; [|split; [|split]]; vm_compute; reflexivity.
Qed.

Lemma findOne_none (filter : User -> bool) (us : list User) :
  (forall u, In u us -> filter u = false) -> findOne filter us = None.
Proof.
  unfold findOne. induction us as [|u us IH]; intros H; [done|]. simpl.
  rewrite (H u) by by left. apply IH. intros v Hv. apply H. by right.
Qed.

Section Handlers.
Variable toLowerCase : list N -> list N.
Variable bcrypt_hash : list N -> list N -> list N.

Lemma forgot_password_run (now : Z) (random : list N) (ip : option (list N))
    (email : list N) (ls : gmap (list N) RateLimit.RateLimitEntry) :
  email <> [] ->
  RateLimit.allowed
    (fst (RateLimit.checkRateLimit (reset_key ip)
            RateLimit.RATE_LIMIT_CONFIGS.passwordReset now ls)) = true ->
  forall us out,
    forgot_password_POST toLowerCase bcrypt_hash now random ip (Some email)
      (World us ls out)
    = let ls' := snd (RateLimit.checkRateLimit (reset_key ip)
                        RateLimit.RATE_LIMIT_CONFIGS.passwordReset now ls) in
      match account toLowerCase email (World us ls out) with
      | None => (json_response 200 successResponse, World us ls' out)
      | Some user =>
        (json_response 200 successResponse,
         World (replace_user (with_reset_token now random user) us) ls'
               (out ++ [Mail PasswordResetMail (Store.email user) (name user)
                             (generateToken random)]))
      end.
Proof.
  intros He Hq us out. unfold forgot_password_POST, reset_key, account in *.
  cbn [limits users outbox].
  destruct (RateLimit.checkRateLimit _ _ now ls) as [v l1].
  cbn [fst snd] in *. rewrite Hq. cbn [negb].
  destruct email as [|c em]; [done|]. cbn [present negb default]. unfold id.
  by destruct (findOne _ us).
Qed.



(** C9, as amended. When a verification token identifies one account and
    a first request with it has answered 200, a second request with the
    same token answers 400 (invalid or expired token) and leaves every
    user record as the first request left it. *)
Theorem reverify_is_rejected (now1 now2 : Z) (token : list N) (w : world) :
  (forall u v, In u (users w) -> In v (users w) ->
     holds_token token u = true -> holds_token token v = true -> _id u = _id v) ->
  let first := verify_email_GET bcrypt_hash now1 (Some token) w in
  status (fst first) = 200 ->
  verify_email_GET bcrypt_hash now2 (Some token) (snd first)
  = (json_response 400 (message_body false "Invalid or expired verification token"),
     snd first).
Proof.
  intros Hone first. subst first. unfold verify_email_GET at 1 3 4.
  destruct token as [|c t]; cbn [present negb default]; [done|]. unfold id.
  fold (holds_token (c :: t)).
  destruct (findOne (holds_token (c :: t)) (users w)) as [user|] eqn:E; [|done].
  intros _. cbn [fst snd].
  unfold verify_email_GET. cbn [present negb default users]. unfold id.
  fold (holds_token (c :: t)).
  replace (findOne (holds_token (c :: t)) _) with (@None User); [done|].
  symmetry. unfold findOne in E. apply find_some in E as [Hin Hh].
  apply findOne_none. intros u Hu.
  unfold save in Hu. apply in_map_iff in Hu as (u0 & <- & Hu0).
  destruct (streq (_id u0) _) eqn:Eid; [done|].
  destruct (holds_token (c :: t) u0) eqn:Eh; [|done].
  rewrite (Hone u0 user Hu0 Hin Eh Hh) in Eid. cbn in Eid.
  by rewrite streq_refl in Eid.
Qed.

End Handlers.



Lemma reverify_is_rejected_witness :
  verify_email_GET tagged_hash 2000000 (Some (js "v-token"))
    (snd (verify_email_GET tagged_hash 1500000 (Some (js "v-token"))
            (world_of unverified_alice)))
  = (json_response 400 (message_body false "Invalid or expired verification token"),
     snd (verify_email_GET tagged_hash 1500000 (Some (js "v-token"))
            (world_of unverified_alice))).
Proof.
  apply (reverify_is_rejected tagged_hash 1500000 2000000 (js "v-token")
           (world_of unverified_alice)).
  - intros u v [<-|[]] [<-|[]] _ _. reflexivity.
  - vm_compute. reflexivity.
Defined.

(** C9, counterexample. Alice verifies with her token and gets 200; the
    same token submitted again gets 400, not a success response. *)
Lemma reverify_returns_400 :
  let first := verify_email_GET tagged_hash 1500000 (Some (js "v-token"))
                 (world_of unverified_alice) in
  let second := verify_email_GET tagged_hash 2000000 (Some (js "v-token")) (snd first) in
  status (fst first) = 200
  /\ Store.isVerified <$> users (snd first) = [true]
  /\ status (fst second) = 400
  /\ body (fst second)
     = message_body false "Invalid or expired verification token".
Proof. intros first second. split; [|split; [|split]]; vm_compute; reflexivity. Qed.

End RouteClaims.

(* ===================================================================== *)
(** * Further properties of the codec, the guard, the rate limiter and
      the routes *)
(* ===================================================================== *)

Module CodecProps.
Import JS JSFacts Jwt JwtFacts Predicates.
Open Scope Z_scope.

Lemma span_digits_spec (s : list N) :
  s = fst (span_digits s) ++ snd (span_digits s)
  /\ digit_chars (fst (span_digits s)).
Proof.
  induction s as [|c r [IH1 IH2]]; [by split; [|constructor]|].
  cbn [span_digits]. destruct (is_digit c) eqn:E.
  - destruct (span_digits r) as [d t]. cbn [fst snd] in *. split.
    + simpl. by rewrite <- IH1.
    + by constructor.
  - by split; [|constructor].
Qed.

Lemma span_digits_unit (ds : list N) (unit : N) :
  digit_chars ds -> is_digit unit = false -> span_digits (ds ++ [unit]) = (ds, [unit]).
Proof.
  intros Hd Hu. induction Hd as [|c ds Hc _ IH]; cbn [app span_digits].
  - by rewrite Hu.
  - by rewrite Hc, IH.
Qed.

(** X1. [parseDuration] reads a non-empty run of decimal digits followed by
    exactly one of s, m, h, d as that many seconds, minutes, hours or days,
    in milliseconds (for values binary64 holds exactly); every other string,
    the empty one included, yields the default of 15 minutes. *)
Theorem parseDuration_format :
  (forall ds : list N,
     ds <> [] -> digit_chars ds ->
     let value := Z.of_N (dval ds) in
     safe_integer (value * 24 * 60 * 60 * 1000) ->
     parseDuration (ds ++ js "s") = value * 1000
     /\ parseDuration (ds ++ js "m") = value * 60 * 1000
     /\ parseDuration (ds ++ js "h") = value * 60 * 60 * 1000
     /\ parseDuration (ds ++ js "d") = value * 24 * 60 * 60 * 1000)
  /\ (forall duration : list N,
        parseDuration duration <> 15 * 60 * 1000 ->
        exists ds unit,
          duration = ds ++ [unit] /\ ds <> [] /\ digit_chars ds
          /\ In unit (js "smhd")).
Proof.
  split.
  - intros ds Hne Hd value _.
    assert (forall unit, is_digit unit = false ->
              parseDuration (ds ++ [unit])
              = if (unit =? 115)%N then value * 1000
                else if (unit =? 109)%N then value * 60 * 1000
                else if (unit =? 104)%N then value * 60 * 60 * 1000
                else if (unit =? 100)%N then value * 24 * 60 * 60 * 1000
                else 15 * 60 * 1000) as H.
    { intros unit Hu. unfold parseDuration. rewrite span_digits_unit by done.
      destruct ds as [|d ds']; done. }
    split; [|split; [|split]].
    + apply (H 115%N eq_refl).
    + apply (H 109%N eq_refl).
    + apply (H 104%N eq_refl).
    + apply (H 100%N eq_refl).
  - intros duration Hp. unfold parseDuration in Hp.
    destruct (span_digits_spec duration) as [Hs Hd].
    destruct (span_digits duration) as [[|d ds] [|u [|? ?]]]; try done.
    cbn [fst snd] in *. exists (d :: ds), u.
    split; [done|]. split; [done|]. split; [done|].
    destruct (N.eqb_spec u 115) as [E|]; [left; by symmetry|].
    destruct (N.eqb_spec u 109) as [E|]; [right; left; by symmetry|].
    destruct (N.eqb_spec u 104) as [E|]; [do 2 right; left; by symmetry|].
    destruct (N.eqb_spec u 100) as [E|]; [do 3 right; left; by symmetry|]. done.
Qed.

Lemma parseDuration_format_witness :
  parseDuration (js "15" ++ js "m") = 15 * 60 * 1000
  /\ parseDuration (js "7" ++ js "d") = 7 * 24 * 60 * 60 * 1000.
Proof.
  destruct parseDuration_format as [H _]. split.
  - apply (H (js "15")); [done|by repeat constructor|]. unfold safe_integer. vm_compute. congruence.
  - apply (H (js "7")); [done|by repeat constructor|]. unfold safe_integer. vm_compute. congruence.
Defined.

(** *** lone surrogates through the codec *)

Lemma toWellFormed_spec (n : nat) : forall s : list N,
  (length s <= n)%nat -> wf16 s ->
  usv (toWellFormed s)
  /\ utf8_encode (toWellFormed s) = utf8_encode s
  /\ (toWellFormed s = s -> usv s).
Proof.
  unfold wf16.
  induction n as [|n IH]; intros [|c r] Hlen Hs; simpl in Hlen; try lia;
    try (split; [constructor|split; [done|constructor]]).
  apply Forall_cons in Hs as [Hc Hr].
  assert (usv [0xFFFD%N]) as Hrep by (by apply usv_bmp; [| | |constructor]).
  destruct (IH r ltac:(lia) Hr) as (IH1 & IH2 & IH3).
  cbn [toWellFormed]. destruct (is_high c) eqn:Hh.
  - assert (0x800 <= c)%N as Hge.
    { unfold is_high in Hh. apply andb_true_iff in Hh as [Hh _]. apply N.leb_le in Hh. lia. }
    assert (c <> 0xFFFD%N) as Hne by (intros ->; done).
    destruct r as [|d r'].
    + split; [done|]. split; [|by intros [= ?]].
      cbn [utf8_encode]. rewrite Hh. by btest.
    + destruct (is_low d) eqn:Hl.
      * apply Forall_cons in Hr as [Hd Hr'].
        destruct (IH r' ltac:(simpl in Hlen; lia) Hr') as (J1 & J2 & J3).
        split; [by apply usv_pair|]. split.
        -- by rewrite !utf8_encode_pair, J2.
        -- intros [= E]. apply usv_pair; auto.
      * split; [by apply usv_bmp|]. split; [|by intros [= ?]].
        rewrite utf8_encode_bmp by done. rewrite IH2.
        cbn [utf8_encode]. rewrite Hh, Hl. by btest.
  - destruct (is_low c) eqn:Hl.
    + assert (0x800 <= c)%N as Hge.
      { unfold is_low in Hl. apply andb_true_iff in Hl as [Hl _]. apply N.leb_le in Hl. lia. }
      assert (c <> 0xFFFD%N) as Hne by (intros ->; done).
      split; [by apply usv_bmp|]. split; [|by intros [= ?]].
      rewrite utf8_encode_bmp by done. rewrite IH2.
      cbn [utf8_encode]. rewrite Hh, Hl. by btest.
    + split; [by apply usv_bmp|]. split.
      * by rewrite !utf8_encode_bmp, IH2.
      * intros [= E]. apply usv_bmp; auto.
Qed.

Lemma url_alphabet (vs : list N) :
  Forall (fun v => v < 64)%N vs ->
  Forall (fun c => base64url_char c = true) (map (fun v => url_char (b64char v)) vs).
Proof.
  intros H. apply Forall_map. eapply Forall_impl; [exact H|].
  intros v Hv. cbv beta.
  exact (range_forallb (fun v => base64url_char (url_char (b64char v))) 64 eq_refl v Hv).
Qed.

Lemma sextets_length (bs : list N) :
  length (sextets_of bs) = ((4 * length bs + 2) / 3)%nat.
Proof.
  induction bs as [|a|a b|a b c r IH] using list_ind3; try done.
  change (sextets_of (a :: b :: c :: r)) with
    ((a / 4 :: (a mod 4) * 16 + b / 16 :: (b mod 16) * 4 + c / 64 :: c mod 64
       :: sextets_of r)%N).
  cbn [length]. rewrite IH.
  replace (4 * S (S (S (length r))) + 2)%nat with (4 * length r + 2 + 4 * 3)%nat by lia.
  rewrite Nat.div_add by lia. lia.
Qed.

(** X3. [base64urlDecode] after [base64urlEncode] returns the string with
    every lone surrogate replaced by U+FFFD, so the round trip is the
    identity exactly on well-formed strings; the encoding uses only letters,
    digits, [-] and [_]. *)
Theorem base64url_roundtrip_well_formed (str : list N) :
  wf16 str ->
  base64urlDecode (base64urlEncode str) = toWellFormed str
  /\ (base64urlDecode (base64urlEncode str) = str <-> usv str)
  /\ Forall (fun c => base64url_char c = true) (base64urlEncode str).
Proof.
  intros Hs. destruct (toWellFormed_spec (length str) str (le_n _) Hs) as (H1 & H2 & H3).
  assert (base64urlDecode (base64urlEncode str) = toWellFormed str) as E.
  { unfold base64urlEncode. rewrite <- H2. by apply (base64url_roundtrip (toWellFormed str)). }
  split; [done|]. split.
  - rewrite E. split; [done|]. intros Hu. rewrite <- E. by apply base64url_roundtrip.
  - unfold base64urlEncode. rewrite url_safe_encode by by apply utf8_encode_bytes.
    by apply url_alphabet, sextets_bound, utf8_encode_bytes.
Qed.

Lemma base64url_roundtrip_well_formed_witness :
  base64urlDecode (base64urlEncode [104; 233; 0xD83D; 0xDE00; 0xD800]%N)
  = [104; 233; 0xD83D; 0xDE00; 0xFFFD]%N.
Proof.
  apply (base64url_roundtrip_well_formed [104; 233; 0xD83D; 0xDE00; 0xD800]%N).
  unfold wf16. repeat constructor.
Defined.

(** X4. Whatever the data and the secret, [createSignature] returns 43
    characters out of letters, digits, [-] and [_]: no dot and no padding. *)
Theorem createSignature_shape (data secret : list N) :
  length (createSignature data secret) = 43%nat
  /\ Forall (fun c => base64url_char c = true) (createSignature data secret).
Proof.
  unfold createSignature.
  destruct (hmac_spec (utf8_encode secret) (utf8_encode data)) as [Hl Hb].
  rewrite url_safe_encode by done. split.
  - by rewrite length_map, sextets_length, Hl.
  - by apply url_alphabet, sextets_bound.
Qed.

End CodecProps.

Module TokenProps.
Import JS JSFacts Jwt JwtFacts Examples Scenarios.
Open Scope Z_scope.

(** X5. A token [signToken] returns splits at its dots into exactly three
    parts: the fixed encoding of the header, a payload segment that decodes
    to the claims with iat and exp added, and the signature of the first two
    parts under JWT_SECRET. *)
Theorem signToken_shape (e : env) (clock_ms : Z) (c : TokenPayload) (expiresIn : list N) :
  let now := seconds clock_ms in
  let exp := now + parseDuration expiresIn / 1000 in
  wf_claims c -> safe_integer now -> safe_integer exp ->
  exists encodedPayload signature,
    split_on 46 (signToken e clock_ms (payload_object c) expiresIn)
    = [js "eyJhbGciOiJIUzI1NiIsInR5cCI6IkpXVCJ9"; encodedPayload; signature]
    /\ JSON_parse (base64urlDecode encodedPayload) = Some (decoded c now exp)
    /\ signature
       = createSignature (js "eyJhbGciOiJIUzI1NiIsInR5cCI6IkpXVCJ9" ++ 46%N :: encodedPayload)
                         (JWT_SECRET e).
Proof.
  intros now exp Hc Hn Hx.
  destruct (fullPayload_ok c now exp Hc Hn Hx) as [Hok Hobj].
  unfold signToken. fold now. fold exp.
  set (text := JSON_stringify_object (fullPayload (payload_object c) now exp)).
  assert (usv text) as Htext by by apply stringify_object_usv.
  assert (base64urlEncode (JSON_stringify_object header)
          = js "eyJhbGciOiJIUzI1NiIsInR5cCI6IkpXVCJ9") as Hh by (vm_compute; reflexivity).
  exists (base64urlEncode text), (createSignature
    (base64urlEncode (JSON_stringify_object header) ++ 46%N :: base64urlEncode text)
    (JWT_SECRET e)).
  split; [|split].
  - rewrite split_three;
      [by rewrite Hh
      |apply base64urlEncode_no_dot, usv_wf16, header_text
      |by apply base64urlEncode_no_dot, usv_wf16
      |apply createSignature_no_dot].
  - rewrite base64url_roundtrip by done. unfold text.
    by rewrite JSON_parse_stringify_object, Hobj.
  - by rewrite Hh.
Qed.

Lemma signToken_shape_witness :
  exists encodedPayload signature,
    split_on 46 (signToken shared_env 1000000 (payload_object alice) (js "15m"))
    = [js "eyJhbGciOiJIUzI1NiIsInR5cCI6IkpXVCJ9"; encodedPayload; signature]
    /\ JSON_parse (base64urlDecode encodedPayload) = Some (decoded alice 1000 1900)
    /\ signature
       = createSignature (js "eyJhbGciOiJIUzI1NiIsInR5cCI6IkpXVCJ9" ++ 46%N :: encodedPayload)
                         (JWT_SECRET shared_env).
Proof.
  apply (signToken_shape shared_env 1000000 alice (js "15m")).
  - unfold wf_claims, wf16. repeat split; apply List.Forall_forall; intros u Hu;
      apply N.ltb_lt; revert u Hu; apply forallb_forall; reflexivity.
  - unfold safe_integer. vm_compute. congruence.
  - unfold safe_integer. vm_compute. congruence.
Defined.

Lemma number_lt_mono (x : number) (n1 n2 : Z) :
  n1 <= n2 -> number_lt x n1 = true -> number_lt x n2 = true.
Proof.
  intros Hle. destruct x as [|neg|m k]; cbn [number_lt]; [done|done|].
  destruct (0 <=? k).
  - intros H. apply Z.ltb_lt in H. apply Z.ltb_lt. lia.
  - intros H. apply Z.ltb_lt in H. apply Z.ltb_lt.
    assert (0 <= 10 ^ (- k)) by (apply Z.pow_nonneg; lia). nia.
Qed.

Lemma seconds_mono (t1 t2 : Z) : t1 <= t2 -> seconds t1 <= seconds t2.
Proof. intros H. unfold seconds. apply Z.div_le_mono; lia. Qed.

(** X7. Time only takes validity away: a token that [verifyToken] rejects
    at one clock reading is rejected at every later one, and the same holds
    for [verifyTokenEdge]. Neither verifier reads iat, so a token is
    accepted at every reading up to its expiry. *)
Theorem rejection_is_permanent (e : env) (t1 t2 : Z) (token : list N) :
  t1 <= t2 ->
  (verifyToken e t1 token = None -> verifyToken e t2 token = None)
  /\ (Edge.valid (Edge.verifyTokenEdge e t1 token) = false ->
      Edge.valid (Edge.verifyTokenEdge e t2 token) = false).
Proof.
  intros Hle. pose proof (seconds_mono t1 t2 Hle) as Hs. split.
  - unfold verifyToken, verifyToken_try.
    destruct (split_on 46 token) as [|h [|p [|sg [|? ?]]]]; try done.
    destruct (negb _); [done|].
    destruct (JSON_parse _) as [payload|]; [|done].
    destruct (get_prop payload (js "exp")) as [v|]; [|done]. cbn.
    unfold js_lt. destruct (to_number v) as [x|]; [|done]. cbn.
    destruct (number_lt x (seconds t1)) eqn:E1; [|done].
    by rewrite (number_lt_mono x _ _ Hs E1).
  - unfold Edge.verifyTokenEdge, Edge.verifyTokenEdge_try.
    destruct (split_on 46 token) as [|h [|p [|sg [|? ?]]]]; try done.
    destruct (negb _); [done|].
    destruct (atob _) as [text|]; [|done].
    destruct (JSON_parse _) as [payload|]; [|done].
    destruct (get_prop payload (js "exp")) as [v|] eqn:Ep; [|done].
    destruct (get_prop payload (js "isVerified")) as [flag|] eqn:Ef;
      [|destruct payload; done].
    cbn. unfold js_lt. destruct (to_number v) as [x|]; [|done]. cbn.
    destruct (number_lt x (seconds t1)) eqn:E1; [|done].
    by rewrite (number_lt_mono x _ _ Hs E1).
Qed.

Lemma rejection_is_permanent_witness :
  verifyToken shared_env 9000000
    (signToken shared_env 1000000 (payload_object alice) (js "15m")) = None.
Proof.
  apply (rejection_is_permanent shared_env 1901000 9000000); [lia|].
  vm_compute. reflexivity.
Defined.

(** X6. A correctly signed token whose payload has no exp property (or is
    not an object at all) is accepted at every clock reading, by
    [verifyToken] and, under a shared secret, by [verifyTokenEdge]: the
    comparison of undefined with the clock is false. *)
Theorem verifyToken_without_exp (e : env) (token h p sg : list N) (payload : json) :
  split_on 46 token = [h; p; sg] ->
  sg = createSignature (h ++ 46%N :: p) (JWT_SECRET e) ->
  get_prop payload (js "exp") = Normal None ->
  (JSON_parse (base64urlDecode p) = Some payload ->
     forall clock_ms, verifyToken e clock_ms token = Some payload)
  /\ (forall text flag,
        shared_secret e ->
        atob (std p) = Some text -> JSON_parse text = Some payload ->
        get_prop payload (js "isVerified") = Normal flag ->
        forall clock_ms,
          Edge.verifyTokenEdge e clock_ms token = Edge.TokenResult true flag).
Proof.
  intros Hs -> Hexp. split.
  - intros Hp clock_ms. unfold verifyToken, verifyToken_try.
    by rewrite Hs, streq_refl, Hp, Hexp.
  - intros text flag (c & s & He) Ha Hp Hf clock_ms.
    unfold Edge.verifyTokenEdge, Edge.verifyTokenEdge_try. rewrite Hs.
    assert (remove_all 61 (replace_all 47 95 (replace_all 43 45
              (base64_encode (hmac_sha256 (utf8_encode (Edge.JWT_SECRET e))
                                          (utf8_encode (h ++ 46%N :: p))))))
            = createSignature (h ++ 46%N :: p) (JWT_SECRET e)) as ->.
    { unfold Edge.JWT_SECRET, JWT_SECRET. by rewrite He. }
    rewrite streq_refl. cbn [negb]. fold (std p). by rewrite Ha, Hp, Hexp, Hf.
Qed.

Lemma verifyToken_without_exp_witness :
  verifyToken shared_env 253402300800000 undated_token
  = Some (JObj [(js "userId", JStr (js "u1"))]).
Proof.
  assert (exists h p sg, split_on 46 undated_token = [h; p; sg]
            /\ sg = createSignature (h ++ 46%N :: p) (JWT_SECRET shared_env)
            /\ JSON_parse (base64urlDecode p) = Some (JObj [(js "userId", JStr (js "u1"))]))
    as (h & p & sg & Hs & Hsg & Hp).
  { do 3 eexists. split; [vm_compute; reflexivity|]. split; vm_compute; reflexivity. }
  by apply (verifyToken_without_exp shared_env undated_token h p sg
              (JObj [(js "userId", JStr (js "u1"))]) Hs Hsg eq_refl).
Defined.

End TokenProps.

Module EdgeProps.
Import JS JSFacts Jwt JwtFacts Examples Predicates.
Open Scope N_scope.




Lemma ascii_js (s : string) : forallb (fun c => c <? 128) (js s) = true -> ascii (js s).
Proof.
  intros H. unfold ascii. rewrite forallb_forall in H. apply List.Forall_forall.
  intros c Hc. by apply N.ltb_lt, H.
Qed.





(** *** [atob] on what the codec writes *)







End EdgeProps.

Module GuardProps.
Import JS JSFacts Jwt JwtFacts Edge Examples Predicates EdgeProps GuardClaims.
Open Scope Z_scope.

Lemma signToken_cons (e : env) (clock_ms : Z) (payload : list (list N * option json))
    (expiresIn : list N) :
  exists c t, signToken e clock_ms payload expiresIn = c :: t.
Proof.
  unfold signToken.
  assert (base64urlEncode (JSON_stringify_object header)
          = js "eyJhbGciOiJIUzI1NiIsInR5cCI6IkpXVCJ9") as -> by (vm_compute; reflexivity).
  by eexists _, _.
Qed.



(** X9. A redirect of the guard is never followed by another one: the
    request for the redirect target, with the same cookie at the same clock
    reading, passes. *)
Theorem no_redirect_chain (e : env) (clock_ms : Z) (req : request)
    (path : list N) (params : list (list N * list N)) :
  middleware e clock_ms req = Redirect path params ->
  middleware e clock_ms (Request path (access_cookie req)) = Next.
Proof.
  rewrite !middleware_unfold. cbn [pathname access_cookie].
  destruct (bypassed (pathname req)); [done|].
  destruct (is_protected (pathname req) && _) eqn:E1.
  - intros [= <- _]. apply andb_true_iff in E1 as [_ E1]. apply negb_true_iff in E1.
    rewrite E1.
    change (bypassed (js "/login")) with false.
    change (is_protected (js "/login")) with false.
    by rewrite andb_false_r.
  - destruct (is_auth_only (pathname req) && _) eqn:E2; [|done].
    intros [= <- _]. apply andb_true_iff in E2 as [_ E2]. rewrite E2.
    change (bypassed (js "/dashboard")) with false.
    change (is_auth_only (js "/dashboard")) with false.
    by rewrite andb_false_r.
Qed.

Lemma no_redirect_chain_witness :
  middleware shared_env 0 (Request (js "/login") None) = Next.
Proof.
  apply (no_redirect_chain shared_env 0 (Request (js "/dashboard/settings") None)
           (js "/login") [(js "redirect", js "/dashboard/settings")]).
  reflexivity.
Defined.

(** X10. The guard passes every request for a path that is neither
    Protected nor AuthOnly, whatever the cookie; it redirects to /login only
    from a Protected path without a valid verified session, and to
    /dashboard only from an AuthOnly path with one. *)
Theorem guard_redirects_only_where_declared (e : env) (clock_ms : Z) (req : request) :
  let s := session e clock_ms (access_cookie req) in
  (is_protected (pathname req) = false -> is_auth_only (pathname req) = false ->
     middleware e clock_ms req = Next)
  /\ (forall path params,
        middleware e clock_ms req = Redirect path params ->
        (path = js "/login" /\ params = [(js "redirect", pathname req)]
         /\ is_protected (pathname req) = true /\ verified s = false)
        \/ (path = js "/dashboard" /\ params = []
            /\ is_auth_only (pathname req) = true /\ verified s = true)).
Proof.
  intros s. rewrite !middleware_unfold. fold s. split.
  - intros -> ->. by destruct (bypassed _).
  - intros path params. destruct (bypassed _); [done|].
    destruct (is_protected (pathname req)) eqn:Hp; cbn [andb].
    + destruct (verified s) eqn:Hv; cbn [negb].
      * rewrite (protected_not_auth _ Hp). done.
      * intros [= <- <-]. by left.
    + destruct (is_auth_only (pathname req)) eqn:Ha; cbn [andb]; [|done].
      destruct (verified s) eqn:Hv; [|done].
      intros [= <- <-]. by right.
Qed.

Lemma guard_redirects_only_where_declared_witness :
  middleware shared_env 0 (Request (js "/questions/42") (Some (js "garbage"))) = Next.
Proof.
  by apply (guard_redirects_only_where_declared shared_env 0
              (Request (js "/questions/42") (Some (js "garbage")))).
Defined.

End GuardProps.

Module RateLimitProps.
Import JS RateLimit Predicates.
Open Scope Z_scope.

Lemma cleanup_lookup (t : Z) (s : gmap (list N) RateLimitEntry) (k : list N) :
  cleanup t s !! k
  = match s !! k with
    | Some entry => if resetTime entry <? t then None else Some entry
    | None => None
    end.
Proof.
  unfold cleanup. destruct (s !! k) as [entry|] eqn:E.
  - destruct (resetTime entry <? t) eqn:Et.
    + apply map_lookup_filter_None. right. intros x Hx. rewrite E in Hx.
      injection Hx as <-. cbn. by rewrite Et.
    + apply map_lookup_filter_Some. split; [done|]. cbn. by rewrite Et.
  - apply map_lookup_filter_None. by left.
Qed.

Lemma check_other_key (key key' : list N) (config : RateLimitConfig) (now : Z)
    (s : gmap (list N) RateLimitEntry) :
  key <> key' -> snd (checkRateLimit key config now s) !! key' = s !! key'.
Proof.
  intros Hne. unfold checkRateLimit.
  destruct (s !! key) as [entry|]; [|by cbn; rewrite lookup_insert_ne].
  destruct (resetTime entry <? now); [by cbn; rewrite lookup_insert_ne|].
  cbn [count resetTime]. destruct (_ >? _); cbn [snd]; by rewrite lookup_insert_ne.
Qed.

Lemma check_depends_on_entry (key : list N) (config : RateLimitConfig) (now : Z)
    (s1 s2 : gmap (list N) RateLimitEntry) :
  s1 !! key = s2 !! key ->
  fst (checkRateLimit key config now s1) = fst (checkRateLimit key config now s2).
Proof.
  intros E. unfold checkRateLimit. rewrite E.
  destruct (s2 !! key) as [entry|]; [|reflexivity].
  destruct (resetTime entry <? now); [reflexivity|].
  cbn [count resetTime]. by destruct (_ >? _).
Qed.

(** X11. The periodic [cleanup] cannot be observed through
    [checkRateLimit]: run at any time up to the call, it changes neither the
    verdict nor the entry the call leaves for the key; it removes exactly
    the entries whose reset time has passed. *)
Theorem cleanup_is_transparent (key : list N) (config : RateLimitConfig) (t now : Z)
    (s : gmap (list N) RateLimitEntry) :
  t <= now ->
  fst (checkRateLimit key config now (cleanup t s)) = fst (checkRateLimit key config now s)
  /\ snd (checkRateLimit key config now (cleanup t s)) !! key
     = snd (checkRateLimit key config now s) !! key
  /\ (forall k entry, cleanup t s !! k = Some entry
                      <-> s !! k = Some entry /\ t <= resetTime entry).
Proof.
  intros Hle. split; [|split].
  - pose proof (cleanup_lookup t s key) as Hc.
    destruct (s !! key) as [entry|] eqn:E; [|by apply check_depends_on_entry; rewrite E].
    destruct (Z.ltb_spec (resetTime entry) t);
      [|by apply check_depends_on_entry; rewrite E].
    unfold checkRateLimit. rewrite Hc, E.
    destruct (Z.ltb_spec (resetTime entry) now); [reflexivity|lia].
  - unfold checkRateLimit. rewrite cleanup_lookup.
    destruct (s !! key) as [entry|]; [|cbn [snd]; by rewrite !lookup_insert_eq].
    destruct (Z.ltb_spec (resetTime entry) t).
    + destruct (Z.ltb_spec (resetTime entry) now); [|lia].
      cbn [snd]. by rewrite !lookup_insert_eq.
    + destruct (resetTime entry <? now); [cbn [snd]; by rewrite !lookup_insert_eq|].
      cbn [count resetTime]. destruct (_ >? _); cbn [snd]; by rewrite !lookup_insert_eq.
  - intros k entry. rewrite cleanup_lookup. destruct (s !! k) as [e0|]; [|by split; [|intros []]].
    destruct (Z.ltb_spec (resetTime e0) t); split; try done.
    + intros [[= ->] ?]. lia.
    + intros [= ->]. by split; [|lia].
    + by intros [? _].
Qed.

Lemma cleanup_is_transparent_witness :
  fst (checkRateLimit (js "login:1.2.3.4") RATE_LIMIT_CONFIGS.login 2000000
         (cleanup 1500000 (<[js "login:1.2.3.4" := Entry 5 1000000]> ∅)))
  = fst (checkRateLimit (js "login:1.2.3.4") RATE_LIMIT_CONFIGS.login 2000000
           (<[js "login:1.2.3.4" := Entry 5 1000000]> ∅)).
Proof.
  apply (cleanup_is_transparent (js "login:1.2.3.4") RATE_LIMIT_CONFIGS.login
           1500000 2000000). lia.
Defined.

(** X12. A call or a reset for one key changes neither the entry nor the
    next verdict of any other key. *)
Theorem rate_limit_keys_are_independent (key key' : list N)
    (config config' : RateLimitConfig) (now now' : Z)
    (s : gmap (list N) RateLimitEntry) :
  key <> key' ->
  snd (checkRateLimit key config now s) !! key' = s !! key'
  /\ resetRateLimit key s !! key' = s !! key'
  /\ fst (checkRateLimit key' config' now' (snd (checkRateLimit key config now s)))
     = fst (checkRateLimit key' config' now' s)
  /\ fst (checkRateLimit key' config' now' (resetRateLimit key s))
     = fst (checkRateLimit key' config' now' s).
Proof.
  intros Hne.
  assert (resetRateLimit key s !! key' = s !! key') as Hr
    by (unfold resetRateLimit; by rewrite lookup_delete_ne).
  split; [by apply check_other_key|]. split; [done|]. split.
  - by apply check_depends_on_entry, check_other_key.
  - by apply check_depends_on_entry.
Qed.

Lemma rate_limit_keys_are_independent_witness :
  fst (checkRateLimit (js "register:1.2.3.4") RATE_LIMIT_CONFIGS.register 2000
         (snd (checkRateLimit (js "login:1.2.3.4") RATE_LIMIT_CONFIGS.login 1000 ∅)))
  = fst (checkRateLimit (js "register:1.2.3.4") RATE_LIMIT_CONFIGS.register 2000 ∅).
Proof.
  by apply (rate_limit_keys_are_independent (js "login:1.2.3.4") (js "register:1.2.3.4")
              RATE_LIMIT_CONFIGS.login RATE_LIMIT_CONFIGS.register 1000 2000 ∅).
Defined.

(** X13. For endpoint names without a colon, [getRateLimitKey] gives
    equal keys only for equal endpoints and equal identifiers (identifiers
    may contain colons, as IPv6 addresses do). *)
Theorem getRateLimitKey_injective (id1 id2 ep1 ep2 : list N) :
  ~ In 58%N ep1 -> ~ In 58%N ep2 ->
  getRateLimitKey id1 ep1 = getRateLimitKey id2 ep2 ->
  ep1 = ep2 /\ id1 = id2.
Proof.
  unfold getRateLimitKey. revert ep2.
  induction ep1 as [|a ep1 IH]; intros [|b ep2] H1 H2 E; cbn [app] in E.
  - by injection E as ->.
  - injection E as <- _. exfalso. apply H2. by left.
  - injection E as -> _. exfalso. apply H1. by left.
  - injection E as -> E.
    destruct (IH ep2) as [-> ->]; [|by intros ?; apply H2; right|done..].
    by intros ?; apply H1; right.
Qed.

Lemma getRateLimitKey_injective_witness :
  js "login" = js "login" /\ js "::1" = js "::1".
Proof.
  apply (getRateLimitKey_injective (js "::1") (js "::1") (js "login") (js "login"));
    [vm_compute; intuition congruence..|reflexivity].
Defined.

(** X14. Starting from a store whose counts are at least one, with
    maxRequests at least one and a non-negative window: the store keeps
    that property through [checkRateLimit], [cleanup] and [resetRateLimit],
    and every verdict has remaining between 0 and maxRequests - 1,
    remaining 0 when refused, and a non-negative resetIn. *)
Theorem verdict_bounds (key : list N) (config : RateLimitConfig) (now : Z)
    (s : gmap (list N) RateLimitEntry) :
  counts_positive s -> 1 <= maxRequests config -> 0 <= windowMs config ->
  let v := fst (checkRateLimit key config now s) in
  counts_positive (snd (checkRateLimit key config now s))
  /\ 0 <= remaining v <= maxRequests config - 1
  /\ (allowed v = false -> remaining v = 0)
  /\ 0 <= resetIn v
  /\ (forall t, counts_positive (cleanup t s))
  /\ counts_positive (resetRateLimit key s).
Proof.
  intros Hs Hn Hw v. subst v. unfold counts_positive in *.
  assert (map_Forall (fun _ entry => 1 <= count entry)
            (<[key := Entry 1 (now + windowMs config)]> s)) as Hfresh
    by (by apply map_Forall_insert_2).
  split; [|split; [|split; [|split; [|split]]]].
  - unfold checkRateLimit. destruct (s !! key) as [entry|] eqn:E; [|done].
    destruct (resetTime entry <? now); [done|].
    pose proof (Hs key entry E) as Hc. cbn in Hc.
    cbn [count resetTime]. destruct (_ >? _); cbn [snd];
      apply map_Forall_insert_2; (done || cbn; lia).
  - unfold checkRateLimit. destruct (s !! key) as [entry|] eqn:E; [|cbn; lia].
    destruct (resetTime entry <? now); [cbn; lia|].
    pose proof (Hs key entry E) as Hc. cbn in Hc.
    cbn [count resetTime]. destruct (Z.gtb_spec (count entry + 1) (maxRequests config));
      cbn; lia.
  - unfold checkRateLimit. destruct (s !! key) as [entry|] eqn:E; [|done].
    destruct (resetTime entry <? now); [done|].
    cbn [count resetTime]. by destruct (_ >? _).
  - unfold checkRateLimit. destruct (s !! key) as [entry|] eqn:E; [|done].
    destruct (Z.ltb_spec (resetTime entry) now); [done|].
    cbn [count resetTime]. destruct (_ >? _); cbn; lia.
  - intros t k entry Hk. rewrite cleanup_lookup in Hk.
    destruct (s !! k) as [e0|] eqn:E; [|done].
    destruct (resetTime e0 <? t); [done|]. injection Hk as <-. by apply (Hs k).
  - intros k entry Hk. unfold resetRateLimit in Hk.
    apply lookup_delete_Some in Hk as [_ Hk]. by apply (Hs k).
Qed.

Lemma verdict_bounds_witness :
  0 <= remaining (fst (checkRateLimit (js "login:1.2.3.4") RATE_LIMIT_CONFIGS.login 1000 ∅))
    <= 4.
Proof.
  destruct (verdict_bounds (js "login:1.2.3.4") RATE_LIMIT_CONFIGS.login 1000 ∅)
    as (_ & H & _); [apply map_Forall_empty|cbn; lia|cbn; lia|].
  exact H.
Defined.

End RateLimitProps.

Module StoreProps.
Import JS JSFacts Store Routes Account.
Open Scope N_scope.

Lemma hexdigit_char (v : N) : v < 16 -> hex_char (hexdigit v) = true.
Proof. exact (range_forallb (fun v => hex_char (hexdigit v)) 16 eq_refl v). Qed.

Lemma hexdigit_inj (a b : N) : a < 16 -> b < 16 -> hexdigit a = hexdigit b -> a = b.
Proof.
  intros Ha Hb E. destruct (hexdigit_facts a Ha) as [Ea _].
  destruct (hexdigit_facts b Hb) as [Eb _]. rewrite E in Ea. congruence.
Qed.

Lemma hex_spec (bs : list N) :
  bytes bs ->
  length (hex bs) = (2 * length bs)%nat /\ Forall (fun c => hex_char c = true) (hex bs).
Proof.
  unfold bytes, hex. induction 1 as [|b bs Hb _ [IH1 IH2]]; [by split; [|constructor]|].
  cbn [flat_map app length]. split; [lia|].
  repeat (constructor; [apply hexdigit_char; lia|]). done.
Qed.

Lemma hex_inj (a b : list N) : bytes a -> bytes b -> hex a = hex b -> a = b.
Proof.
  unfold bytes, hex. intros Ha. revert b.
  induction Ha as [|x a Hx _ IH]; intros [|y b] Hb E; try done.
  apply Forall_cons in Hb as [Hy Hb]. cbn [flat_map app] in E.
  injection E as E1 E2 E.
  apply hexdigit_inj in E1; [|lia..]. apply hexdigit_inj in E2; [|lia..].
  f_equal; [lia|]. by apply IH.
Qed.

(** X15. [generateToken] writes two lower-case hexadecimal digits per
    random byte (64 characters for its 32 bytes), and different bytes give
    different tokens; [hashToken] always returns 64 lower-case hexadecimal
    digits. *)
Theorem token_format :
  (forall random : list N,
     bytes random ->
     length (generateToken random) = (2 * length random)%nat
     /\ Forall (fun c => hex_char c = true) (generateToken random))
  /\ (forall r1 r2 : list N,
        bytes r1 -> bytes r2 -> generateToken r1 = generateToken r2 -> r1 = r2)
  /\ (forall token : list N,
        length (hashToken token) = 64%nat
        /\ Forall (fun c => hex_char c = true) (hashToken token)).
Proof.
  split; [|split].
  - intros random. apply hex_spec.
  - apply hex_inj.
  - intros token. unfold hashToken.
    destruct (sha256_spec (utf8_encode token)) as [Hl Hb].
    destruct (hex_spec _ Hb) as [H1 H2]. by rewrite H1, Hl.
Qed.

Lemma token_format_witness :
  length (generateToken (repeat 171 32)) = 64%nat.
Proof.
  destruct token_format as [H _].
  apply (H (repeat 171 32)). unfold bytes. repeat constructor.
Defined.

Section Methods.
Variable bcrypt_hash : list N -> list N -> list N.

(** X16. After [generateVerificationToken] on a stored user and a save,
    [findByVerificationToken] with the returned token finds that user,
    provided no other account holds the same hash; the document stores the
    hash of the token, not the token. *)
Theorem verification_token_roundtrip (random : list N) (now : Z) (user : User)
    (us : list User) :
  In user us ->
  (forall u, In u us -> _id u <> _id user ->
     field_is (verificationToken u) (hashToken (generateToken random)) = false) ->
  let token := fst (generateVerificationToken random user) in
  let user' := snd (generateVerificationToken random user) in
  findByVerificationToken token (save bcrypt_hash false [] now user' us)
  = Some (set_updatedAt now user')
  /\ verificationToken user' = Some (hashToken token)
  /\ token = generateToken random.
Proof.
  intros Hin Hothers token user'. split; [|done].
  subst token user'. unfold generateVerificationToken. cbn [fst snd].
  change (hex random) with (generateToken random).
  unfold findByVerificationToken.
  change (hex (sha256 (utf8_encode (generateToken random))))
    with (hashToken (generateToken random)).
  set (h := hashToken (generateToken random)) in *.
  unfold findOne, save, pre_save. cbn [negb].
  change (_id (set_verificationToken (Some h) user)) with (_id user).
  induction us as [|u rest IH]; [done|]. cbn [map find].
  destruct (streq (_id u) (_id user)) eqn:E.
  - cbn [verificationToken set_updatedAt set_verificationToken field_is].
    by rewrite streq_refl.
  - assert (_id u <> _id user) as Hne by (intros Heq; by rewrite Heq, streq_refl in E).
    rewrite (Hothers u (or_introl eq_refl) Hne).
    apply IH.
    + destruct Hin as [->|?]; [done|done].
    + intros v Hv. apply Hothers. by right.
Qed.

End Methods.

Lemma verification_token_roundtrip_witness :
  findByVerificationToken (generateToken (repeat 171 32))
    (save Examples.tagged_hash false [] 2000000
       (snd (generateVerificationToken (repeat 171 32) Examples.verified_user))
       [Examples.verified_user])
  = Some (set_updatedAt 2000000
            (snd (generateVerificationToken (repeat 171 32) Examples.verified_user))).
Proof.
  apply (verification_token_roundtrip Examples.tagged_hash (repeat 171 32) 2000000
           Examples.verified_user [Examples.verified_user]).
  - by left.
  - intros u [<-|[]] H. done.
Defined.

End StoreProps.

Module LoginProps.
Import JS JSFacts Jwt Store Routes Account Sessions Examples RateLimitClaims.
Open Scope Z_scope.

Section Handlers.
Variable toLowerCase : list N -> list N.
Variable bcrypt_hash : list N -> list N -> list N.
Variable bcrypt_compare : list N -> list N -> bool.

Lemma login_unfold (e : env) (now : Z) (ip : option (list N)) (b : login_body)
    (w : world) :
  login_POST toLowerCase bcrypt_hash bcrypt_compare e now ip b w
  = let check := RateLimit.checkRateLimit (login_key ip) RateLimit.RATE_LIMIT_CONFIGS.login
                   now (limits w) in
    let w1 := World (users w) (snd check) (outbox w) in
    if negb (RateLimit.allowed (fst check)) then
      (Response 429
         (message_body false "Too many login attempts. Please try again later.")
         (retry_after (RateLimit.resetIn (fst check))) [], w1)
    else if negb (present (login_email b)) || negb (present (login_password b)) then
      (json_response 400
         (errors_body false "Email and password are required"
            [err_if (negb (present (login_email b))) "email" "Email is required";
             err_if (negb (present (login_password b))) "password"
                    "Password is required"]),
       w1)
    else
      match findOne (fun u => streq (Store.email u)
                                (toLowerCase (default [] (login_email b)))) (users w) with
      | None =>
        (json_response 401
           (errors_body false "Invalid credentials"
              [err "email" "No account found with this email"]), w1)
      | Some user =>
        if negb (bcrypt_compare (default [] (login_password b)) (Store.password user)) then
          (json_response 401
             (errors_body false "Invalid credentials"
                [err "password" "Incorrect password"]), w1)
        else if negb (Store.isVerified user) then
          (json_response 403
             (errors_body false "Please verify your email before logging in"
                [err "email"
                   "Email not verified. Check your inbox for the verification link."]
              ++ [(js "requiresVerification", Some (JBool true))]),
           w1)
        else
          let user' := set_lastLoginAt (Some now) user in
          (Response 200
             (message_body true "Login successful"
              ++ [(js "data", Some (JObj
                    [(js "id", JStr (_id user')); (js "name", JStr (name user'));
                     (js "email", JStr (Store.email user'));
                     (js "avatar", opt_json JStr (avatar user'));
                     (js "role", JStr (Store.role user'));
                     (js "reputation", JInt (reputation user'));
                     (js "isVerified", JBool (Store.isVerified user'))]))])
             [] (setAuthCookies e
                   (signAccessToken e now (login_tokenPayload user'))
                   (signRefreshToken e now (login_tokenPayload user'))),
           World (save bcrypt_hash false [] now user' (users w))
                 (RateLimit.resetRateLimit (login_key ip) (snd check)) (outbox w))
      end.
Proof.
  unfold login_POST, login_key.
  destruct (RateLimit.checkRateLimit _ _ now (limits w)) as [v l1]. reflexivity.
Qed.

(** X17. The login route answers 200 only when both fields are present,
    an account has the lower-cased email, [comparePassword] accepts the
    password and the account is verified; the cookies then carry tokens
    signed for that account. Every other answer sets no cookie, changes no
    user record and sends no mail. *)
Theorem login_requires_credentials (e : env) (now : Z) (ip : option (list N))
    (b : login_body) (w : world) :
  let run := login_POST toLowerCase bcrypt_hash bcrypt_compare e now ip b w in
  (status (fst run) = 200 ->
     exists email password user,
       login_email b = Some email /\ login_password b = Some password
       /\ findByEmail toLowerCase email (users w) = Some user
       /\ comparePassword bcrypt_compare password user = true
       /\ Store.isVerified user = true
       /\ cookies (fst run)
          = setAuthCookies e
              (signAccessToken e now (login_tokenPayload user))
              (signRefreshToken e now (login_tokenPayload user)))
  /\ (status (fst run) <> 200 ->
      cookies (fst run) = [] /\ users (snd run) = users w /\ outbox (snd run) = outbox w).
Proof.
  intros run. subst run. rewrite login_unfold. cbv zeta.
  destruct (negb (RateLimit.allowed _)); [by split|].
  destruct (login_email b) as [[|c em]|] eqn:Ee; cbn [present negb orb]; try by split.
  destruct (login_password b) as [[|d pw]|] eqn:Ep; cbn [present negb orb]; try by split.
  cbn [default]. unfold id.
  destruct (findOne _ (users w)) as [user|] eqn:Ef; [|by split].
  destruct (bcrypt_compare (d :: pw) (Store.password user)) eqn:Ec; cbn [negb]; [|by split].
  destruct (Store.isVerified user) eqn:Ev; cbn [negb]; [|by split].
  split; [|done]. intros _. by exists (c :: em), (d :: pw), user.
Qed.

Lemma login_failure_is_counted (e : env) (now : Z) (ip : option (list N))
    (b : login_body) (w : world) :
  let run := login_POST toLowerCase bcrypt_hash bcrypt_compare e now ip b w in
  status (fst run) <> 200 ->
  limits (snd run)
  = snd (RateLimit.checkRateLimit (login_key ip) RateLimit.RATE_LIMIT_CONFIGS.login
           now (limits w)).
Proof.
  intros run. subst run. rewrite login_unfold. cbv zeta.
  destruct (negb (RateLimit.allowed _)); [done|].
  destruct (negb (present (login_email b)) || negb (present (login_password b)));
    [done|].
  destruct (findOne _ (users w)) as [user|]; [|done].
  destruct (negb (bcrypt_compare _ _)); [done|].
  destruct (negb (Store.isVerified user)); done.
Qed.

Lemma login_refused (e : env) (now : Z) (ip : option (list N)) (b : login_body)
    (w : world) :
  RateLimit.allowed
    (fst (RateLimit.checkRateLimit (login_key ip) RateLimit.RATE_LIMIT_CONFIGS.login
            now (limits w))) = false ->
  let run := login_POST toLowerCase bcrypt_hash bcrypt_compare e now ip b w in
  status (fst run) = 429 /\ cookies (fst run) = [] /\ users (snd run) = users w.
Proof. intros H run. subst run. rewrite login_unfold. cbv zeta. by rewrite H. Qed.

Lemma attempts_within (e : env) (ip : option (list N)) (r : Z)
    (attempts : list (Z * login_body)) :
  forall (w : world) (c : Z),
    limits w !! login_key ip = Some (RateLimit.Entry c r) ->
    Forall (fun a => fst a <= r) attempts ->
    forall (k : nat) (resp : response),
      fst (login_attempts toLowerCase bcrypt_hash bcrypt_compare e ip attempts w) !! k
      = Some resp ->
      (forall j rj, (j < k)%nat ->
         fst (login_attempts toLowerCase bcrypt_hash bcrypt_compare e ip attempts w) !! j
         = Some rj -> status rj <> 200) ->
      5 <= c + Z.of_nat k ->
      status resp = 429 /\ cookies resp = [].
Proof.
  induction attempts as [|[now b] later IH]; intros w c Hw Hall k resp Hk Hfail Hc;
    [done|].
  apply Forall_cons in Hall as [Hnow Hlater]. cbn [fst] in Hnow.
  cbn [login_attempts] in Hk, Hfail.
  pose proof (check_within (login_key ip) RateLimit.RATE_LIMIT_CONFIGS.login now
                (limits w) (RateLimit.Entry c r) Hw Hnow) as Hcheck.
  cbn [RateLimit.count RateLimit.resetTime] in Hcheck.
  destruct (login_POST toLowerCase bcrypt_hash bcrypt_compare e now ip b w)
    as [r0 w1] eqn:E0.
  destruct (login_attempts toLowerCase bcrypt_hash bcrypt_compare e ip later w1)
    as [rs w2] eqn:E1.
  cbn [fst] in Hk, Hfail.
  destruct k as [|k].
  - injection Hk as <-.
    assert (RateLimit.allowed
              (fst (RateLimit.checkRateLimit (login_key ip)
                      RateLimit.RATE_LIMIT_CONFIGS.login now (limits w))) = false) as Hno.
    { rewrite Hcheck. unfold RateLimit.verdict_after.
      destruct (Z.gtb_spec (c + 1) (RateLimit.maxRequests RateLimit.RATE_LIMIT_CONFIGS.login));
        [done|]. cbn in *. lia. }
    pose proof (login_refused e now ip b w Hno) as H. cbv zeta in H. rewrite E0 in H.
    cbn [fst] in H. by destruct H as (? & ? & _).
  - assert (status r0 <> 200) as H0 by (apply (Hfail 0%nat); [lia|done]).
    pose proof (login_failure_is_counted e now ip b w) as Hl. cbv zeta in Hl.
    rewrite E0 in Hl. cbn [fst snd] in Hl. specialize (Hl H0).
    assert (limits w1 !! login_key ip = Some (RateLimit.Entry (c + 1) r)) as Hw1.
    { rewrite Hl, Hcheck. cbn [snd]. apply lookup_insert_eq. }
    pose proof (IH w1 (c + 1) Hw1 Hlater k resp) as H. rewrite E1 in H. cbn [fst] in H.
    apply H; [done| |lia].
    intros j rj Hj Hrj. apply (Hfail (S j) rj); [lia|done].
Qed.

(** X18. From one address, after five login requests inside one window
    none of which succeeded, every further request in that window is
    answered 429 without cookies, whatever its credentials. *)
Theorem five_failures_lock_out (e : env) (ip : option (list N)) (first : Z)
    (b0 : login_body) (later : list (Z * login_body)) (w : world) :
  RateLimit.fresh_at (login_key ip) first (limits w) ->
  Forall (fun a => fst a <= first + 15 * 60 * 1000) later ->
  let responses :=
    fst (login_attempts toLowerCase bcrypt_hash bcrypt_compare e ip
           ((first, b0) :: later) w) in
  forall (k : nat) (resp : response),
    responses !! k = Some resp -> (5 <= k)%nat ->
    (forall j rj, (j < k)%nat -> responses !! j = Some rj -> status rj <> 200) ->
    status resp = 429 /\ cookies resp = [].
Proof.
  intros Hfresh Hall responses k resp Hk H5 Hfail. subst responses.
  cbn [login_attempts] in Hk, Hfail.
  pose proof (check_fresh (login_key ip) RateLimit.RATE_LIMIT_CONFIGS.login first
                (limits w) Hfresh) as Hcheck.
  destruct (login_POST toLowerCase bcrypt_hash bcrypt_compare e first ip b0 w)
    as [r0 w1] eqn:E0.
  destruct (login_attempts toLowerCase bcrypt_hash bcrypt_compare e ip later w1)
    as [rs w2] eqn:E1.
  cbn [fst] in Hk, Hfail.
  destruct k as [|k]; [lia|].
  assert (status r0 <> 200) as H0 by (apply (Hfail 0%nat); [lia|done]).
  pose proof (login_failure_is_counted e first ip b0 w) as Hl. cbv zeta in Hl.
  rewrite E0 in Hl. cbn [fst snd] in Hl. specialize (Hl H0).
  assert (limits w1 !! login_key ip
          = Some (RateLimit.Entry 1 (first + 15 * 60 * 1000))) as Hw1.
  { rewrite Hl, Hcheck. cbn [snd]. apply lookup_insert_eq. }
  pose proof (attempts_within e ip (first + 15 * 60 * 1000) later w1 1 Hw1 Hall k resp)
    as H.
  rewrite E1 in H. cbn [fst] in H. apply H; [done| |lia].
  intros j rj Hj Hrj. apply (Hfail (S j) rj); [lia|done].
Qed.

(** X19. A successful login deletes the address's login counter, so the
    next login check from that address is allowed with 4 remaining; the
    counters of the other keys are untouched. *)
Theorem login_success_resets_limit (e : env) (now : Z) (ip : option (list N))
    (b : login_body) (w : world) :
  let run := login_POST toLowerCase bcrypt_hash bcrypt_compare e now ip b w in
  status (fst run) = 200 ->
  limits (snd run) !! login_key ip = None
  /\ (forall now' : Z,
        fst (RateLimit.checkRateLimit (login_key ip) RateLimit.RATE_LIMIT_CONFIGS.login
               now' (limits (snd run)))
        = RateLimit.Verdict true 4 (15 * 60 * 1000))
  /\ (forall key, key <> login_key ip ->
        limits (snd run) !! key = limits w !! key).
Proof.
  intros run. subst run. rewrite login_unfold. cbv zeta.
  destruct (negb (RateLimit.allowed _)); [done|].
  destruct (negb (present (login_email b)) || negb (present (login_password b)));
    [done|].
  destruct (findOne _ (users w)) as [user|]; [|done].
  destruct (negb (bcrypt_compare _ _)); [done|].
  destruct (negb (Store.isVerified user)); [done|].
  intros _. cbn [fst snd limits]. unfold RateLimit.resetRateLimit.
  split; [apply lookup_delete_eq|]. split.
  - intros now'. unfold RateLimit.checkRateLimit. by rewrite lookup_delete_eq.
  - intros key Hne. rewrite lookup_delete_ne by done.
    by apply RateLimitProps.check_other_key.
Qed.

(** X20. Unlike forgot-password, login tells whether an account exists:
    for an unknown email the 401 body names the email field, for a wrong
    password it names the password field, and the two bodies differ; a
    right password on an unverified account gives 403. *)
Theorem login_reveals_accounts (e : env) (now : Z) (ip : option (list N))
    (email password : list N) (w : world) :
  email <> [] -> password <> [] ->
  RateLimit.allowed
    (fst (RateLimit.checkRateLimit (login_key ip) RateLimit.RATE_LIMIT_CONFIGS.login
            now (limits w))) = true ->
  let run := login_POST toLowerCase bcrypt_hash bcrypt_compare e now ip
               {| login_email := Some email; login_password := Some password |} w in
  match findByEmail toLowerCase email (users w) with
  | None =>
    fst run = json_response 401
                (errors_body false "Invalid credentials"
                   [err "email" "No account found with this email"])
  | Some user =>
    if negb (comparePassword bcrypt_compare password user) then
      fst run = json_response 401
                  (errors_body false "Invalid credentials"
                     [err "password" "Incorrect password"])
    else if negb (Store.isVerified user) then status (fst run) = 403
    else status (fst run) = 200
  end
  /\ json_response 401
       (errors_body false "Invalid credentials"
          [err "email" "No account found with this email"])
     <> json_response 401
          (errors_body false "Invalid credentials" [err "password" "Incorrect password"]).
Proof.
  intros He Hp Hq run. subst run. rewrite login_unfold. cbv zeta. rewrite Hq.
  cbn [negb login_email login_password].
  destruct email as [|c em]; [done|]. destruct password as [|d pw]; [done|].
  cbn [present negb orb default]. unfold id, findByEmail, comparePassword. split.
  - destruct (findOne _ (users w)) as [user|]; [|done].
    destruct (negb (bcrypt_compare _ _)); [done|].
    by destruct (negb (Store.isVerified user)).
  - intros E. by vm_compute in E.
Qed.

End Handlers.

Lemma login_requires_credentials_witness :
  cookies (fst (login_POST ascii_lower tagged_hash (fun _ _ => false) shared_env 1000000
                  (Some (js "1.2.3.4"))
                  {| login_email := Some (js "alice@example.com");
                     login_password := Some (js "wrong") |}
                  (world_of verified_user))) = [].
Proof.
  apply (login_requires_credentials ascii_lower tagged_hash (fun _ _ => false)
           shared_env 1000000 (Some (js "1.2.3.4"))
           {| login_email := Some (js "alice@example.com");
              login_password := Some (js "wrong") |} (world_of verified_user)).
  vm_compute. congruence.
Defined.

Lemma five_failures_lock_out_witness :
  let wrong := {| login_email := Some (js "alice@example.com");
                  login_password := Some (js "wrong") |} in
  let right := {| login_email := Some (js "alice@example.com");
                  login_password := Some (js "right") |} in
  let responses :=
    fst (login_attempts ascii_lower tagged_hash
           (fun candidate _ => streq candidate (js "right")) shared_env
           (Some (js "1.2.3.4"))
           [(1000, wrong); (2000, wrong); (3000, wrong); (4000, wrong); (5000, wrong);
            (6000, right)]
           (world_of verified_user)) in
  exists resp, responses !! 5%nat = Some resp /\ status resp = 429.
Proof.
  intros wrong right responses.
  destruct (responses !! 5%nat) as [resp|] eqn:Hr; [|by vm_compute in Hr].
  exists resp. split; [done|].
  apply (five_failures_lock_out ascii_lower tagged_hash
           (fun candidate _ => streq candidate (js "right")) shared_env
           (Some (js "1.2.3.4")) 1000 wrong
           [(2000, wrong); (3000, wrong); (4000, wrong); (5000, wrong); (6000, right)]
           (world_of verified_user) I) with (k := 5%nat); [|exact Hr|lia|].
  - repeat constructor; cbn; lia.
  - intros j rj Hj. fold responses.
    destruct j as [|[|[|[|[|j]]]]]; try lia; vm_compute; intros [= <-]; congruence.
Defined.

Lemma login_success_resets_limit_witness :
  limits (snd (login_POST ascii_lower tagged_hash (fun _ _ => true) shared_env 1000000
                 (Some (js "1.2.3.4"))
                 {| login_email := Some (js "alice@example.com");
                    login_password := Some (js "right") |}
                 (world_of verified_user)))
    !! login_key (Some (js "1.2.3.4")) = None.
Proof.
  destruct (login_success_resets_limit ascii_lower tagged_hash (fun _ _ => true)
              shared_env 1000000 (Some (js "1.2.3.4"))
              {| login_email := Some (js "alice@example.com");
                 login_password := Some (js "right") |} (world_of verified_user))
    as [H _]; [vm_compute; reflexivity|].
  exact H.
Defined.

Lemma login_reveals_accounts_witness :
  fst (login_POST ascii_lower tagged_hash (fun _ _ => false) shared_env 1000000
         (Some (js "1.2.3.4"))
         {| login_email := Some (js "nobody@example.com");
            login_password := Some (js "secret") |}
         (world_of verified_user))
  = json_response 401
      (errors_body false "Invalid credentials"
         [err "email" "No account found with this email"]).
Proof.
  destruct (login_reveals_accounts ascii_lower tagged_hash (fun _ _ => false) shared_env
              1000000 (Some (js "1.2.3.4")) (js "nobody@example.com") (js "secret")
              (world_of verified_user)) as [H _]; [done|done|reflexivity|].
  exact H.
Defined.

End LoginProps.

Module SessionProps.
Import JS JSFacts Jwt JwtFacts Store Routes Account Examples.
Open Scope Z_scope.


Lemma refresh_with (e : env) (t0 t1 t2 t3 : Z) (c : TokenPayload) (expiresIn : list N) :
  let now := seconds t0 in
  let exp := now + parseDuration expiresIn / 1000 in
  wf_claims c -> safe_integer now -> safe_integer exp -> seconds t1 <= exp ->
  refresh_POST e t1 t2 t3 (Some (signToken e t0 (payload_object c) expiresIn))
  = Response 200 (message_body true "Token refreshed successfully") []
      (setAuthCookies e
         (signAccessToken e t2 (payload_object (without_flag c)))
         (signRefreshToken e t3 (payload_object (without_flag c)))).
Proof.
  intros now exp Hc Hn Hx Hle. unfold refresh_POST.
  destruct (GuardProps.signToken_cons e t0 (payload_object c) expiresIn) as (a & t & Hcons).
  assert (present (Some (signToken e t0 (payload_object c) expiresIn)) = true) as ->
    by by rewrite Hcons.
  assert (verifyToken e t1 (signToken e t0 (payload_object c) expiresIn)
          = Some (decoded c now exp)) as Hv.
  { rewrite (verify_signed e t0 t1 c _ Hc Hn Hx).
    fold now. fold exp. by destruct (Z.ltb_spec exp (seconds t1)); [lia|]. }
  cbn [negb default]. unfold id. rewrite Hv.
  unfold decoded, payload_object. by destruct (Jwt.isVerified c).
Qed.

(** X21. The refresh route does not tell the two kinds of token apart: an
    unexpired access token presented as the refresh cookie is answered 200
    with a new access token and a new refresh token. *)
Theorem refresh_accepts_access_token (e : env) (t0 t1 t2 t3 : Z) (c : TokenPayload) :
  let now := seconds t0 in
  let exp := now + parseDuration (JWT_EXPIRES_IN e) / 1000 in
  wf_claims c -> safe_integer now -> safe_integer exp -> seconds t1 <= exp ->
  refresh_POST e t1 t2 t3 (Some (signAccessToken e t0 (payload_object c)))
  = Response 200 (message_body true "Token refreshed successfully") []
      (setAuthCookies e
         (signAccessToken e t2 (payload_object (without_flag c)))
         (signRefreshToken e t3 (payload_object (without_flag c)))).
Proof. intros now exp. apply refresh_with. Qed.

Lemma refresh_accepts_access_token_witness :
  status (refresh_POST shared_env 1500000 1500000 1500000
            (Some (signAccessToken shared_env 1000000 (payload_object alice)))) = 200.
Proof.
  rewrite (refresh_accepts_access_token shared_env 1000000 1500000 1500000 1500000 alice).
  - reflexivity.
  - unfold wf_claims. repeat split; by apply usv_wf16, ascii_usv, EdgeProps.ascii_js.
  - unfold safe_integer. vm_compute. congruence.
  - unfold safe_integer. vm_compute. congruence.
  - vm_compute. congruence.
Defined.

(** X22. The refresh route answers 200 or 401 and nothing else: 200, with
    both cookies, exactly when a cookie is present and [verifyToken] returns
    a truthy payload for it; 401 without any cookie or header otherwise. *)
Theorem refresh_answers (e : env) (t1 t2 t3 : Z) (refreshToken : option (list N)) :
  let r := refresh_POST e t1 t2 t3 refreshToken in
  (status r = 200
   /\ exists token payload,
        refreshToken = Some token /\ verifyToken e t1 token = Some payload
        /\ truthy (Some payload) = true
        /\ map cookie_name (cookies r) = [ACCESS_TOKEN_COOKIE; REFRESH_TOKEN_COOKIE])
  \/ (status r = 401 /\ cookies r = [] /\ headers r = []
      /\ (refreshToken = None \/ refreshToken = Some []
          \/ exists token, refreshToken = Some token
                           /\ truthy (verifyToken e t1 token) = false)).
Proof.
  intros r. subst r. unfold refresh_POST.
  destruct refreshToken as [[|a t]|]; cbn [present negb default].
  - right. cbn. repeat split; auto.
  - unfold id. destruct (verifyToken e t1 (a :: t)) as [payload|] eqn:Ev.
    2:{ right. cbn. repeat split; try done. do 2 right. exists (a :: t). by rewrite Ev. }
    destruct (truthy (Some payload)) eqn:Et; cbn [negb].
    2:{ right. cbn. repeat split; try done. do 2 right. exists (a :: t). by rewrite Ev. }
    left.
    assert (forall name, exists v, get_prop payload name = Normal v) as Hg.
    { intros name. destruct payload; try done; by eexists. }
    cbn [from_option].
    destruct (Hg (js "userId")) as [u ->]. destruct (Hg (js "email")) as [m ->].
    destruct (Hg (js "role")) as [ro ->].
    split; [reflexivity|]. exists (a :: t), payload.
    split; [done|]. split; [done|]. split; [done|]. reflexivity.
  - right. cbn. repeat split; auto.
Qed.

End SessionProps.

Module CookieProps.
Import JS JSFacts Jwt JwtFacts Store Routes Account Examples SessionProps.
Open Scope Z_scope.





End CookieProps.

Module AccountProps.
Import JS JSFacts Jwt JwtFacts Store Routes Account Examples.
Open Scope Z_scope.

Lemma findOne_some (filter : User -> bool) (us : list User) (u : User) :
  findOne filter us = Some u -> In u us /\ filter u = true.
Proof. apply find_some. Qed.

Section Handlers.
Variable toLowerCase : list N -> list N.
Variable bcrypt_hash : list N -> list N -> list N.
Variable bcrypt_compare : list N -> list N -> bool.

(** What [save] does to the document and to the others. *)
Lemma save_spec (modified : bool) (salt : list N) (now : Z) (doc : User)
    (us : list User) (u : User) :
  In u (save bcrypt_hash modified salt now doc us) ->
  (u = set_updatedAt now (pre_save bcrypt_hash modified salt doc))
  \/ (In u us /\ _id u <> _id doc).
Proof.
  unfold save. intros H. apply in_map_iff in H as (u0 & <- & Hu0).
  destruct (streq (_id u0) (_id doc)) eqn:E; [by left|].
  right. split; [done|]. intros Heq. by rewrite Heq, streq_refl in E.
Qed.

(** X23. The verification link has no expiry: the answer of verify-email
    does not depend on the clock. On 200 the account that holds the hash of
    the token is marked verified and its token cleared, and nothing else
    changes; on any other answer nothing changes at all. *)
Theorem verification_link_never_expires (now1 now2 : Z) (token : option (list N))
    (w : world) :
  let run := verify_email_GET bcrypt_hash now1 token w in
  fst run = fst (verify_email_GET bcrypt_hash now2 token w)
  /\ (status (fst run) = 200 ->
      exists tok user,
        token = Some tok /\ findByVerificationToken tok (users w) = Some user
        /\ users (snd run)
           = replace_user
               (set_updatedAt now1 (set_verificationToken None (set_isVerified true user)))
               (users w)
        /\ limits (snd run) = limits w /\ outbox (snd run) = outbox w)
  /\ (status (fst run) <> 200 -> snd run = w).
Proof.
  intros run. subst run. unfold verify_email_GET, findByVerificationToken.
  destruct token as [[|c t]|]; cbn [present negb default]; try by repeat split.
  unfold id. fold (hashToken (c :: t)).
  destruct (findOne _ (users w)) as [user|] eqn:E; [|by repeat split].
  split; [done|]. split; [|done]. intros _. by exists (c :: t), user.
Qed.

(** The three courses of the resend route. *)
Lemma resend_run (now : Z) (random : list N) (email : list N) (w : world) :
  email <> [] ->
  let run := verify_email_POST toLowerCase bcrypt_hash now random (Some email) w in
  status (fst run) = 200
  /\ match findByEmail toLowerCase email (users w) with
     | None =>
       fst run = json_response 200
                   (message_body true
                      "If an account exists, a verification email has been sent.")
       /\ snd run = w
     | Some user =>
       if Store.isVerified user then
         fst run = json_response 200 (message_body true "Email is already verified.")
         /\ snd run = w
       else
         fst run = json_response 200
                     (message_body true
                        "Verification email sent. Please check your inbox.")
         /\ users (snd run)
            = replace_user
                (set_updatedAt now
                   (set_verificationToken
                      (Some (hashToken (generateToken random))) user))
                (users w)
         /\ outbox (snd run)
            = outbox w ++ [Mail VerificationMail (Store.email user) (name user)
                                (generateToken random)]
     end.
Proof.
  intros He run. subst run. unfold verify_email_POST, findByEmail.
  destruct email as [|c em]; [done|]. cbn [present negb default]. unfold id.
  destruct (findOne _ (users w)) as [user|]; [|done].
  by destruct (Store.isVerified user).
Qed.

(** X24. Asking for the verification mail again replaces the stored hash:
    afterwards the link of the earlier mail is answered 400 and the new one
    200 (for an unverified account whose earlier token no other account
    holds, the two hashes being different). *)
Theorem resend_cancels_old_link (now1 now2 : Z) (random old email : list N)
    (w : world) (user : User) :
  email <> [] -> random <> [] -> old <> [] ->
  findByEmail toLowerCase email (users w) = Some user ->
  Store.isVerified user = false ->
  hashToken old <> hashToken (generateToken random) ->
  (forall u, In u (users w) -> holds_token old u = true -> _id u = _id user) ->
  let w1 := snd (verify_email_POST toLowerCase bcrypt_hash now1 random (Some email) w) in
  verify_email_GET bcrypt_hash now2 (Some old) w1
  = (json_response 400 (message_body false "Invalid or expired verification token"), w1)
  /\ status (fst (verify_email_GET bcrypt_hash now2 (Some (generateToken random)) w1))
     = 200.
Proof.
  intros He Hr Ho Hfind Hv Hneq Hold w1.
  pose proof (resend_run now1 random email w He) as [_ H]. cbv zeta in H.
  rewrite Hfind, Hv in H. destruct H as (_ & Hu & _). fold w1 in Hu.
  apply findOne_some in Hfind as [Hin _].
  set (doc := set_verificationToken (Some (hashToken (generateToken random))) user) in *.
  assert (users w1 = save bcrypt_hash false [] now1 doc (users w)) as Hsave by done.
  split.
  - unfold verify_email_GET.
    destruct old as [|c t]; [done|].
    cbn [present negb default]. unfold id.
    replace (findOne _ (users w1)) with (@None User); [done|]. symmetry.
    apply RouteClaims.findOne_none. intros u Hu1. rewrite Hsave in Hu1.
    apply save_spec in Hu1 as [->|[Hu1 Hne]].
    + unfold pre_save, doc.
      cbn [negb verificationToken set_updatedAt set_verificationToken field_is].
      apply streq_neq. intros E. apply Hneq. by rewrite E.
    + destruct (field_is (verificationToken u) (hashToken (c :: t))) eqn:Eh; [|done].
      exfalso. apply Hne. by apply Hold.
  - unfold verify_email_GET.
    assert (present (Some (generateToken random)) = true) as ->.
    { destruct random as [|b r]; [done|]. done. }
    cbn [negb default]. unfold id.
    destruct (findOne _ (users w1)) as [found|] eqn:E; [done|].
    exfalso. unfold findOne in E.
    assert (In (set_updatedAt now1 doc) (users w1)) as Hdoc.
    { rewrite Hsave. unfold save. apply in_map_iff. exists user. split; [|done].
      change (_id doc) with (_id user). by rewrite streq_refl. }
    pose proof (find_none _ _ E _ Hdoc) as E'. unfold doc in E'.
    cbn [verificationToken set_updatedAt set_verificationToken field_is] in E'.
    by rewrite streq_refl in E'.
Qed.

End Handlers.

Lemma verification_link_never_expires_witness :
  fst (verify_email_GET tagged_hash 1500000 (Some (js "v-token"))
         (world_of unverified_alice))
  = fst (verify_email_GET tagged_hash 99999999999 (Some (js "v-token"))
           (world_of unverified_alice)).
Proof.
  apply (verification_link_never_expires tagged_hash 1500000 99999999999
           (Some (js "v-token")) (world_of unverified_alice)).
Defined.

Lemma resend_cancels_old_link_witness :
  let w1 := snd (verify_email_POST ascii_lower tagged_hash 2000000 (repeat 171%N 32)
                   (Some (js "Alice@Example.com")) (world_of unverified_alice)) in
  verify_email_GET tagged_hash 3000000 (Some (js "v-token")) w1
  = (json_response 400 (message_body false "Invalid or expired verification token"), w1).
Proof.
  intros w1.
  apply (resend_cancels_old_link ascii_lower tagged_hash 2000000 3000000
           (repeat 171%N 32) (js "v-token") (js "Alice@Example.com")
           (world_of unverified_alice) unverified_alice).
  - done.
  - done.
  - done.
  - vm_compute. reflexivity.
  - reflexivity.
  - vm_compute. congruence.
  - intros u [<-|[]] _. reflexivity.
Defined.

End AccountProps.

Module RecoveryProps.
Import JS JSFacts Jwt JwtFacts Store Routes Account Examples AccountProps.
Open Scope Z_scope.

Lemma replace_in (d : User) (us : list User) (u : User) :
  In u (replace_user d us) -> u = d \/ (In u us /\ _id u <> _id d).
Proof.
  unfold replace_user. intros H. apply in_map_iff in H as (u0 & <- & Hu0).
  destruct (streq (_id u0) (_id d)) eqn:E; [by left|].
  right. split; [done|]. intros Heq. by rewrite Heq, streq_refl in E.
Qed.

Lemma replace_finds (d : User) (us : list User) (filter : User -> bool) :
  (exists u, In u us /\ _id u = _id d) ->
  filter d = true ->
  (forall u, In u us -> _id u <> _id d -> filter u = false) ->
  findOne filter (replace_user d us) = Some d.
Proof.
  intros (u0 & Hin & Hid) Hdoc Hothers. unfold findOne, replace_user.
  induction us as [|u rest IH]; [done|]. cbn [map find].
  destruct (streq (_id u) (_id d)) eqn:E; [by rewrite Hdoc|].
  assert (_id u <> _id d) as Hne by (intros Heq; by rewrite Heq, streq_refl in E).
  rewrite (Hothers u (or_introl eq_refl) Hne). apply IH.
  - destruct Hin as [->|?]; [done|done].
  - intros v Hv. apply Hothers. by right.
Qed.

Lemma generateToken_present (random : list N) :
  random <> [] -> present (Some (generateToken random)) = true.
Proof. by destruct random. Qed.

Lemma reset_run (bcrypt_hash : list N -> list N -> list N) (now : Z) (salt tok pw : list N) (w : world) :
  tok <> [] -> (8 <= length pw)%nat ->
  reset_password_POST bcrypt_hash now salt
    {| reset_token := Some tok; reset_password := Some pw |} w
  = match findOne (reset_filter (hashToken tok) now) (users w) with
    | None =>
      (json_response 400
         (errors_body false "Invalid or expired reset token"
            [err "token" "This reset link is invalid or has expired"]), w)
    | Some user =>
      (json_response 200
         (message_body true
            "Password reset successfully. You can now log in with your new password."),
       World (replace_user (with_new_password bcrypt_hash now salt pw user) (users w))
             (limits w) (outbox w))
    end.
Proof.
  intros Ht Hlen. unfold reset_password_POST. cbn [reset_token reset_password].
  destruct tok as [|c t]; [done|]. destruct pw as [|d p]; [simpl in Hlen; lia|].
  cbn [present negb orb default]. unfold id.
  replace (Z.of_nat (length (d :: p)) <? 8) with false by (symmetry; apply Z.ltb_ge; lia).
  by destruct (findOne _ (users w)).
Qed.

Section Recovery.
Variable toLowerCase : list N -> list N.
Variable bcrypt_hash : list N -> list N -> list N.

(** X25. The token mailed by forgot-password, presented to reset-password
    with a password of at least 8 characters before the hour is over, is
    answered 200 and sets that account's password hash; presented a second
    time it is answered 400; presented when the hour is over it is answered
    400 and nothing changes (no other account holding the same hash). *)
Theorem reset_link_works_once (now1 now2 now3 : Z) (random salt email pw : list N)
    (ip : option (list N)) (w : world) (user : User) :
  email <> [] -> random <> [] -> within_quota now1 ip w ->
  account toLowerCase email w = Some user ->
  (8 <= length pw)%nat ->
  (forall u, In u (users w) -> _id u <> _id user ->
     field_is (resetPasswordToken u) (hashToken (generateToken random)) = false) ->
  let w1 := snd (forgot_password_POST toLowerCase bcrypt_hash now1 random ip
                   (Some email) w) in
  let b := {| reset_token := Some (generateToken random); reset_password := Some pw |} in
  let run := reset_password_POST bcrypt_hash now2 salt b w1 in
  (now2 < now1 + 60 * 60 * 1000 ->
     status (fst run) = 200
     /\ users (snd run)
        = replace_user
            (with_new_password bcrypt_hash now2 salt pw (with_reset_token now1 random user))
            (users w1)
     /\ status (fst (reset_password_POST bcrypt_hash now3 salt b (snd run))) = 400)
  /\ (now1 + 60 * 60 * 1000 <= now2 -> status (fst run) = 400 /\ snd run = w1).
Proof.
  intros He Hr Hq Hacc Hlen Hothers w1 b run.
  assert (generateToken random <> []) as Hg by by destruct random.
  destruct w as [us ls out]. unfold within_quota in Hq. cbn [limits users] in *.
  pose proof (RouteClaims.forgot_password_run toLowerCase bcrypt_hash now1 random ip
                email ls He Hq us out) as Hrun.
  cbv zeta in Hrun. rewrite Hacc in Hrun.
  assert (users w1 = replace_user (with_reset_token now1 random user) us) as Hu1
    by (unfold w1; by rewrite Hrun).
  unfold account in Hacc. apply findOne_some in Hacc as [Hin _]. cbn [users] in Hin.
  set (h := hashToken (generateToken random)) in *.
  set (doc1 := with_reset_token now1 random user) in *.
  assert (forall now, reset_filter h now doc1 = (now1 + 60 * 60 * 1000 >? now)) as Hdoc.
  { intros now. unfold reset_filter, doc1, with_reset_token.
    cbn [resetPasswordToken resetPasswordExpires set_updatedAt
         set_resetPasswordExpires set_resetPasswordToken field_is].
    fold h. by rewrite streq_refl. }
  assert (forall now u, In u (users w1) -> u <> doc1 -> reset_filter h now u = false)
    as Hrest.
  { intros now u Hu Hne. rewrite Hu1 in Hu. apply replace_in in Hu as [?|[Hu Hid]]; [done|].
    unfold reset_filter. by rewrite (Hothers u Hu Hid). }
  subst run b. rewrite (reset_run bcrypt_hash now2 salt _ pw w1 Hg Hlen). fold h. split.
  - intros Hlt.
    assert (findOne (reset_filter h now2) (users w1) = Some doc1) as ->.
    { rewrite Hu1. apply replace_finds.
      - by exists user.
      - rewrite Hdoc. apply Z.gtb_lt. lia.
      - intros u Hu Hid. unfold reset_filter. change (_id doc1) with (_id user) in Hid.
        by rewrite (Hothers u Hu Hid). }
    split; [done|]. split; [done|]. cbn [fst snd].
    rewrite (reset_run bcrypt_hash now3 salt _ pw _ Hg Hlen). fold h. cbn [users].
    replace (findOne (reset_filter h now3) _) with (@None User); [done|]. symmetry.
    apply RouteClaims.findOne_none. intros u Hu.
    apply replace_in in Hu as [->|[Hu Hid]]; [done|].
    apply Hrest; [done|]. intros ->. by apply Hid.
  - intros Hge.
    replace (findOne (reset_filter h now2) (users w1)) with (@None User); [done|].
    symmetry. apply RouteClaims.findOne_none. intros u Hu.
    rewrite Hu1 in Hu. apply replace_in in Hu as [->|[Hu Hid]].
    + rewrite Hdoc, Z.gtb_ltb. apply Z.ltb_ge. lia.
    + unfold reset_filter. by rewrite (Hothers u Hu Hid).
Qed.


End Recovery.

Lemma reset_link_works_once_witness :
  let w1 := snd (forgot_password_POST ascii_lower tagged_hash 1000000 (repeat 171%N 32)
                   (Some (js "1.2.3.4")) (Some (js "Alice@Example.com"))
                   (world_of verified_user)) in
  let b := {| reset_token := Some (generateToken (repeat 171%N 32));
              reset_password := Some (js "new-password") |} in
  status (fst (reset_password_POST tagged_hash 2000000 (js "salt") b w1)) = 200
  /\ status (fst (reset_password_POST tagged_hash 3000000 (js "salt") b
                    (snd (reset_password_POST tagged_hash 2000000 (js "salt") b w1))))
     = 400.
Proof.
  intros w1 b.
  destruct (reset_link_works_once ascii_lower tagged_hash 1000000 2000000 3000000
              (repeat 171%N 32) (js "salt") (js "Alice@Example.com") (js "new-password")
              (Some (js "1.2.3.4")) (world_of verified_user) verified_user)
    as [H _].
  - done.
  - done.
  - vm_compute. reflexivity.
  - vm_compute. reflexivity.
  - cbn. lia.
  - intros u [<-|[]] Hne. done.
  - destruct H as (H1 & _ & H3); [lia|]. by split.
Defined.

End RecoveryProps.

Module PasswordProps.
Import JS JSFacts Jwt JwtFacts Store Routes Account Examples AccountProps.
Open Scope Z_scope.


Section Handlers.
Variable toLowerCase : list N -> list N.
Variable bcrypt_hash : list N -> list N -> list N.
Variable bcrypt_compare : list N -> list N -> bool.


End Handlers.


End PasswordProps.
